(** * TinyMCE: native event delegation (EditorObservable.ts) and the mobile
    image picker (ImagePicker.js)

  A shallow embedding of the two source files and the properties of
  their event routing, delegate book-keeping and image insertion. *)

From stdpp Require Import gmap strings pretty list fin_maps.

Open Scope string_scope.

(* ===================================================================== *)
(** ** JavaScript results *)
(* ===================================================================== *)

(** A call either returns or throws a [TypeError] (a property read off
  [undefined]). *)
Inductive Result (A : Type) : Type :=
| Ok (a : A)
| TypeError.
Arguments Ok {A} a.
Arguments TypeError {A}.

(* ===================================================================== *)
(** ** The DOM collaborator *)
(* ===================================================================== *)

Module DOMUtils.

(** The nodes of the browser's documents.  A node is addressed by the
    document it lives in and by the child indices leading to it,
    innermost first: the document itself has the empty path, and dropping
    the head of a path gives the parent. *)
Record Node : Set := mkNode { ownerDocument : nat; path : list nat }.

#[global] Instance Node_eq_dec : EqDecision Node.
Proof. solve_decision. Defined.

Definition parentNode (n : Node) : option Node :=
  match path n with
  | [] => None
  | _ :: p => Some (mkNode (ownerDocument n) p)
  end.

(** [document.documentElement]: the single element child of a document. *)
Definition documentElement (d : Node) : Node :=
  mkNode (ownerDocument d) (0 :: path d).

(** What a listener can be attached to: a node or a window. *)
Inductive EventTarget : Set :=
  | TNode (n : Node)
  | TWindow (w : nat).

#[global] Instance EventTarget_eq_dec : EqDecision EventTarget.
Proof. solve_decision. Defined.

(** Modelled from the spec: [DOMUtils.isChildOf] is not among the
    sources; the spec words it as "the event target or an ancestor of
    it".  The walk goes up from [node] through [parentNode] and stops at
    the first node equal to [parent]; a missing [parent] is never
    found. *)
Fixpoint isChildOf_path (d : nat) (p : list nat) (parent : option Node) : bool :=
  if decide (parent = Some (mkNode d p)) then true
  else match p with
       | [] => false
       | _ :: p' => isChildOf_path d p' parent
       end.

Definition isChildOf (node : Node) (parent : option Node) : bool :=
  isChildOf_path (ownerDocument node) (path node) parent.

Section Registry.
(** The callbacks are compared by identity, as function objects are. *)
Context {F : Type} `{EqDecision F}.

Record Listener : Type :=
  mkListener { l_target : EventTarget; l_name : string; l_func : F }.

(** Modelled from the spec: [DOMUtils.bind] and [DOMUtils.unbind] are
    not among the sources.  [bind] "installs exactly one native
    listener" on the target; [unbind] removes the listeners of the
    target, all of them or those of one name or those of one name and
    callback.  Neither does anything on a missing target. *)
Definition bind (target : option EventTarget) (name : string) (func : F)
    (ls : list Listener) : list Listener :=
  match target with
  | Some t => ls ++ [mkListener t name func]
  | None => ls
  end.

Definition selected (t : EventTarget) (name : option string) (func : option F)
    (l : Listener) : bool :=
  bool_decide (l_target l = t)
  && match name with
     | Some n => bool_decide (l_name l = n)
     | None => true
     end
  && match func with
     | Some f => bool_decide (l_func l = f)
     | None => true
     end.

Definition unbind (target : option EventTarget) (name : option string)
    (func : option F) (ls : list Listener) : list Listener :=
  match target with
  | Some t => List.filter (fun l => negb (selected t name func l)) ls
  | None => ls
  end.

End Registry.

Arguments Listener F : clear implicits.

End DOMUtils.

Import DOMUtils.

(* ===================================================================== *)
(** ** EditorObservable.ts *)
(* ===================================================================== *)

Module EditorObservable.

(** The two closures that [bindEventDelegate] creates.  The one of the
    custom event root reads the editor list of the editor manager when it
    runs; the private one holds on to its editor. *)
Inductive DelegateKind : Set :=
| CustomRootDelegate (eventName : string)
| EditorDelegate (editor : string) (eventName : string).

(** A delegate is a function object: [fn] is its identity. *)
Record Delegate : Set := mkDelegate { fn : nat; kind : DelegateKind }.

#[global] Instance DelegateKind_eq_dec : EqDecision DelegateKind.
Proof. solve_decision. Defined.

#[global] Instance Delegate_eq_dec : EqDecision Delegate.
Proof. solve_decision. Defined.

(** The part of an editor instance this mixin reads and writes.  The
    editor class is not among the sources: [doc], [body], [win] and
    [container] are what [getDoc()], [getBody()], [getWin()] and
    [getContainer()] answer, [body_onload] whether the body has an
    [onload] handler, [event_root] the setting behind
    [Settings.getEventRoot], [readonly] what [isReadOnly] answers, and
    [dom] whether [editor.dom] is there yet. *)
Record Editor : Type := mkEditor {
  id : string;
  inline : bool;
  hidden : bool;
  readonly : bool;
  removed : bool;
  initialized : bool;
  event_root : option string;
  eventRoot : option Node;
  delegates : option (gmap string Delegate);
  _pendingNativeEvents : option (list string);
  doc : Node;
  body : option Node;
  body_onload : bool;
  win : nat;
  container : option Node;
  dom : bool
}.

Definition set_eventRoot (r : option Node) (e : Editor) : Editor :=
  mkEditor (id e) (inline e) (hidden e) (readonly e) (removed e) (initialized e)
    (event_root e) r (delegates e) (_pendingNativeEvents e) (doc e) (body e)
    (body_onload e) (win e) (container e) (dom e).

Definition set_delegates (d : option (gmap string Delegate)) (e : Editor) : Editor :=
  mkEditor (id e) (inline e) (hidden e) (readonly e) (removed e) (initialized e)
    (event_root e) (eventRoot e) d (_pendingNativeEvents e) (doc e) (body e)
    (body_onload e) (win e) (container e) (dom e).

Definition set_pendingNativeEvents (p : option (list string)) (e : Editor) : Editor :=
  mkEditor (id e) (inline e) (hidden e) (readonly e) (removed e) (initialized e)
    (event_root e) (eventRoot e) (delegates e) p (doc e) (body e)
    (body_onload e) (win e) (container e) (dom e).

Definition set_body_onload (b : bool) (e : Editor) : Editor :=
  mkEditor (id e) (inline e) (hidden e) (readonly e) (removed e) (initialized e)
    (event_root e) (eventRoot e) (delegates e) (_pendingNativeEvents e) (doc e)
    (body e) b (win e) (container e) (dom e).

(** The module-level state: [customEventRootDelegates], the native
    listeners behind [DOM.bind], the ['removeEditor'] handlers registered
    on the editor manager (by the editor their closure holds) and the
    supply of function identities. *)
Record Global : Type := mkGlobal {
  customEventRootDelegates : option (gmap string Delegate);
  listeners : list (Listener Delegate);
  removeEditorHandlers : list string;
  nextFn : nat
}.

(** A native event as the delegates see it. *)
Record Event : Set := mkEvent { target : Node; stamp : nat }.

(** What a delegate does to the editors: [editor.fire(eventName, e)] or
    [preventReadOnlyEvents(editor, e)].  What the handlers behind these
    calls do in turn is the editor's business and not followed here. *)
Inductive Action : Set :=
| Fire (editor : string) (eventName : string) (e : Event)
| PreventReadOnlyEvents (editor : string) (e : Event).

Definition actionEditor (a : Action) : string :=
  match a with
  | Fire ed _ _ => ed
  | PreventReadOnlyEvents ed _ => ed
  end.

(** Modelled from the spec: [Settings.getEventRoot] is not among the
    sources; it reads the "optional custom event root" the editor is
    configured with.  [truthy] is the truth value of the setting as a
    JavaScript condition (a missing or empty selector is false). *)
Definition getEventRoot (editor : Editor) : option string := event_root editor.

Definition truthy (s : option string) : bool :=
  match s with
  | Some "" => false
  | Some _ => true
  | None => false
  end.

(** [delegates] and [customEventRootDelegates] are plain objects, made
    with [{}], so a read of a name finds the object's own delegate or
    else what [Object.prototype] has under that name: a function, or the
    prototype itself for ["__proto__"], which counts as true in a
    condition and is the callback of no listener.  [Obj.each] and
    [delete] see own names only. *)
Definition objectPrototypeNames : list string :=
  ["constructor"; "hasOwnProperty"; "isPrototypeOf"; "propertyIsEnumerable";
   "toLocaleString"; "toString"; "valueOf"; "__proto__"; "__defineGetter__";
   "__defineSetter__"; "__lookupGetter__"; "__lookupSetter__"].

Definition inherited (name : string) : bool :=
  bool_decide (name ∈ objectPrototypeNames).

Inductive Member : Set :=
| OwnDelegate (d : Delegate)
| PrototypeMember (name : string).

Definition getMember (object : gmap string Delegate) (name : string)
  : option Member :=
  match object !! name with
  | Some d => Some (OwnDelegate d)
  | None => if inherited name then Some (PrototypeMember name) else None
  end.

Definition hasMember (object : gmap string Delegate) (name : string) : bool :=
  bool_decide (is_Some (getMember object name)).

(** [dom.unbind(target, name, callback)] with the callback a read of
    [delegates] gave. *)
Definition unbindMember (target : option EventTarget) (name : string)
    (callback : option Member) (ls : list (Listener Delegate))
  : list (Listener Delegate) :=
  match callback with
  | Some (OwnDelegate d) => unbind target (Some name) (Some d) ls
  | Some (PrototypeMember _) => ls
  | None => unbind target (Some name) None ls
  end.

(** [s] has [pat] somewhere inside. *)
Fixpoint contains (pat s : string) : bool :=
  String.prefix pat s
  || match s with
     | EmptyString => false
     | String _ s' => contains pat s'
     end.

(** [/^mouse|touch|click|contextmenu|drop|dragover|dragend/.test(eventName)]:
    the anchor binds to the first alternative only. *)
Definition documentElementEvent (eventName : string) : bool :=
  String.prefix "mouse" eventName
  || contains "touch" eventName
  || contains "click" eventName
  || contains "contextmenu" eventName
  || contains "drop" eventName
  || contains "dragover" eventName
  || contains "dragend" eventName.

Section WithSelect.

(** [DOM.select]: the elements a selector finds, in document order. *)
Variable select : string -> list Node.

Definition getEventTarget (editor : Editor) (eventName : string)
  : option Node * Editor :=
  if String.eqb eventName "selectionchange" then
    (Some (doc editor), editor)
  else if negb (inline editor) && documentElementEvent eventName then
    (Some (documentElement (doc editor)), editor)
  else
    match getEventRoot editor with
    | Some sel =>
        if truthy (Some sel) then
          let editor' :=
            match eventRoot editor with
            | Some _ => editor
            | None => set_eventRoot (head (select sel)) editor
            end in
          (eventRoot editor', editor')
        else (body editor, editor)
    | None => (body editor, editor)
    end.

(** Modelled from the spec: [isReadOnly] is not among the sources; it is
    the "read-only-state query" of the editor. *)
Definition isReadOnly (editor : Editor) : bool := readonly editor.

Definition isListening (editor : Editor) : bool :=
  negb (hidden editor) && negb (isReadOnly editor).

Definition fireEvent (editor : Editor) (eventName : string) (e : Event)
  : list Action :=
  if isListening editor then [Fire (id editor) eventName e]
  else if isReadOnly editor then [PreventReadOnlyEvents (id editor) e]
  else [].

(** The loop of the shared delegate, [while (i--) { ... editors[i] ... }]:
    [i] is the value tested, the body runs at [i - 1]. *)
Fixpoint customRootLoop (editors : list Editor) (eventName : string)
    (e : Event) (i : nat) : list Action :=
  match i with
  | O => []
  | S i' =>
      match editors !! i' with
      | Some ed =>
          (if bool_decide (body ed = Some (target e)) || isChildOf (target e) (body ed)
           then fireEvent ed eventName e else [])
          ++ customRootLoop editors eventName e i'
      | None => customRootLoop editors eventName e i'
      end
  end.

(** The delegate of the custom event root; [editors] is what
    [editor.editorManager.get()] returns when the event arrives. *)
Definition customRootDelegate (editors : list Editor) (eventName : string)
    (e : Event) : list Action :=
  customRootLoop editors eventName e (List.length editors).

(** The private delegate. *)
Definition editorDelegate (editor : Editor) (eventName : string) (e : Event)
  : list Action :=
  fireEvent editor eventName e.

(** [editor.delegates[eventName]] as the condition it is in
    [bindEventDelegate], read off the object as the first statement of
    that function leaves it. *)
Definition hasDelegate (editor : Editor) (eventName : string) : bool :=
  hasMember (default ∅ (delegates editor)) eventName.

Definition bindEventDelegate (g : Global) (editor : Editor) (eventName : string)
  : Global * Editor :=
  let editor :=
    match delegates editor with
    | None => set_delegates (Some ∅) editor
    | Some _ => editor
    end in
  if hasDelegate editor eventName || removed editor then (g, editor)
  else
    let '(eventRootElm, editor) := getEventTarget editor eventName in
    if truthy (getEventRoot editor) then
      let g :=
        match customEventRootDelegates g with
        | None =>
            mkGlobal (Some ∅) (listeners g)
              (removeEditorHandlers g ++ [id editor]) (nextFn g)
        | Some _ => g
        end in
      let registry := default ∅ (customEventRootDelegates g) in
      if hasMember registry eventName then (g, editor)
      else
        let delegate := mkDelegate (nextFn g) (CustomRootDelegate eventName) in
        (mkGlobal (Some (<[eventName := delegate]> registry))
           (bind (TNode <$> eventRootElm) eventName delegate (listeners g))
           (removeEditorHandlers g) (S (nextFn g)),
         editor)
    else
      let delegate :=
        mkDelegate (nextFn g) (EditorDelegate (id editor) eventName) in
      (mkGlobal (customEventRootDelegates g)
         (bind (TNode <$> eventRootElm) eventName delegate (listeners g))
         (removeEditorHandlers g) (S (nextFn g)),
       set_delegates (Some (<[eventName := delegate]> (default ∅ (delegates editor))))
         editor).

(** [bindPendingEventDelegates]: [Tools.each] over the queued names, in
    order; a missing queue has nothing to visit. *)
Definition bindPendingEventDelegates (g : Global) (self : Editor)
  : Global * Editor :=
  foldl (fun '(g, self) name => bindEventDelegate g self name) (g, self)
    (default [] (_pendingNativeEvents self)).

Definition toggleNativeEvent (g : Global) (self : Editor) (name : string)
    (state : bool) : Result (Global * Editor) :=
  if String.eqb name "focus" || String.eqb name "blur" then Ok (g, self)
  else if state then
    if initialized self then Ok (bindEventDelegate g self name)
    else
      match _pendingNativeEvents self with
      | None => Ok (g, set_pendingNativeEvents (Some [name]) self)
      | Some pending => Ok (g, set_pendingNativeEvents (Some (pending ++ [name])%list) self)
      end
  else if initialized self then
    if dom self then
      let '(t, self) := getEventTarget self name in
      match delegates self with
      | None => TypeError
      | Some ds =>
          Ok (mkGlobal (customEventRootDelegates g)
                (unbindMember (TNode <$> t) name (getMember ds name) (listeners g))
                (removeEditorHandlers g) (nextFn g),
              set_delegates (Some (delete name ds)) self)
      end
    else TypeError
  else Ok (g, self).

(** One round of [Obj.each(self.delegates, (value, name) => ...)] in
    [unbindAllNativeEvents]: [self.dom.unbind(getEventTarget(self, name),
    name, value)]. *)
Definition unbindDelegate (acc : Result (list (Listener Delegate) * Editor))
    (entry : string * Delegate) : Result (list (Listener Delegate) * Editor) :=
  match acc with
  | Ok (ls, self) =>
      if dom self then
        let '(t, self') := getEventTarget self entry.1 in
        Ok (unbind (TNode <$> t) (Some entry.1) (Some entry.2) ls, self')
      else TypeError
  | TypeError => TypeError
  end.

Definition unbindAllNativeEvents (g : Global) (self : Editor)
  : Result (Global * Editor) :=
  let body0 := body self in
  let dom0 := dom self in
  match
    match delegates self with
    | Some ds =>
        match foldl unbindDelegate (Ok (listeners g, self)) (map_to_list ds) with
        | Ok (ls, self) => Ok (ls, set_delegates None self)
        | TypeError => TypeError
        end
    | None => Ok (listeners g, self)
    end
  with
  | TypeError => TypeError
  | Ok (ls, self) =>
      let '(ls, self) :=
        if negb (inline self) && bool_decide (is_Some body0) && dom0 then
          (unbind (Some (TNode (doc self))) None None
             (unbind (Some (TWindow (win self))) None None ls),
           set_body_onload false self)
        else (ls, self) in
      let ls :=
        if dom0 then
          unbind (TNode <$> container self) None None
            (unbind (TNode <$> body0) None None ls)
        else ls in
      Ok (mkGlobal (customEventRootDelegates g) ls (removeEditorHandlers g)
            (nextFn g), self)
  end.

(** The ['removeEditor'] handler that the first custom-root binding
    registers; [editor] is the editor its closure holds and [activeEditor]
    what the editor manager has as active editor when the handler runs.
    One round of its [Obj.each] is
    [editor.dom.unbind(getEventTarget(editor, name))]. *)
Definition unbindCustomRoot (acc : Result (list (Listener Delegate) * Editor))
    (name : string) : Result (list (Listener Delegate) * Editor) :=
  match acc with
  | Ok (ls, editor) =>
      if dom editor then
        let '(t, editor') := getEventTarget editor name in
        Ok (unbind (TNode <$> t) None None ls, editor')
      else TypeError
  | TypeError => TypeError
  end.

Definition onRemoveEditor (activeEditor : option string) (g : Global)
    (editor : Editor) : Result (Global * Editor) :=
  match activeEditor with
  | Some _ => Ok (g, editor)
  | None =>
      match customEventRootDelegates g with
      | Some registry =>
          match foldl unbindCustomRoot (Ok (listeners g, editor))
                  (map_to_list registry).*1 with
          | Ok (ls, editor) =>
              Ok (mkGlobal None ls (removeEditorHandlers g) (nextFn g), editor)
          | TypeError => TypeError
          end
      | None => Ok (g, editor)
      end
  end.

(** Running a bound delegate: [objects] gives the editor a private
    delegate holds on to, [editors] the live editors of the manager. *)
Definition runDelegate (objects : gmap string Editor) (editors : list Editor)
    (d : Delegate) (e : Event) : list Action :=
  match kind d with
  | CustomRootDelegate eventName => customRootDelegate editors eventName e
  | EditorDelegate ed eventName =>
      match objects !! ed with
      | Some editor => editorDelegate editor eventName e
      | None => []
      end
  end.

End WithSelect.

End EditorObservable.

(* ===================================================================== *)
(** ** ImagePicker.js *)
(* ===================================================================== *)

Module ImagePicker.

(** A picked file: an opaque binary payload. *)
Inductive Blob : Set := blob (handle : nat).

#[global] Instance Blob_eq_dec : EqDecision Blob.
Proof. solve_decision. Defined.

(** The native event under a simulated event: [raw.target.files] and
    [raw.dataTransfer], each possibly missing.  A file list is an object,
    so it counts as true in a condition even when it is empty. *)
Record DataTransfer : Set := mkDataTransfer { dt_files : option (list Blob) }.

Record RawEvent : Set := mkRawEvent {
  target_files : option (list Blob);
  dataTransfer : option DataTransfer
}.

Record SimulatedEvent : Set := mkSimulatedEvent { raw : RawEvent; isStopped : bool }.

Definition cut (se : SimulatedEvent) : SimulatedEvent :=
  mkSimulatedEvent (raw se) true.

(** [event.raw().target.files || event.raw().dataTransfer.files] *)
Definition pickFiles (r : RawEvent) : Result (option (list Blob)) :=
  match target_files r with
  | Some files => Ok (Some files)
  | None =>
      match dataTransfer r with
      | Some dt => Ok (dt_files dt)
      | None => TypeError
      end
  end.

(** [Option.from(files[0])] *)
Definition extractBlob (simulatedEvent : SimulatedEvent) : Result (option Blob) :=
  match pickFiles (raw simulatedEvent) with
  | Ok (Some files) => Ok (head files)
  | Ok None => TypeError
  | TypeError => TypeError
  end.

(** The blob cache entry and the markup of [editor.dom.createHTML]. *)
Record BlobInfo : Set := mkBlobInfo {
  info_id : string;
  info_blob : Blob;
  info_base64 : string
}.

Record Html : Set := mkHtml { tag : string; attrs : list (string * string) }.

(** The collaborators of [addImage], by what they are called with. *)
Inductive Call : Set :=
| TransactBegin
| TransactEnd
| IdGenerate (prefix : string) (result : string)
| CacheCreate (id : string) (b : Blob) (base64 : string)
| CacheAdd (info : BlobInfo)
| CreateHTML (h : Html)
| InsertContent (h : Html).

#[global] Instance BlobInfo_eq_dec : EqDecision BlobInfo.
Proof. solve_decision. Defined.

#[global] Instance Html_eq_dec : EqDecision Html.
Proof. solve_decision. Defined.

#[global] Instance Call_eq_dec : EqDecision Call.
Proof. solve_decision. Defined.

(** The editor and its collaborators as [addImage] sees them: the counter
    of [Id], the blob cache, the content before the insertion point, the
    undo manager (levels taken, nesting of running transactions) and the
    calls made so far. *)
Record World : Set := mkWorld {
  unique : nat;
  blobCache : list BlobInfo;
  content : list Html;
  undoLevels : nat;
  locks : nat;
  calls : list Call
}.

(** Code that runs against the editor. *)
Definition M (A : Type) : Type := World -> A * World.

#[global] Instance M_ret : MRet M := fun A a w => (a, w).

#[global] Instance M_bind : MBind M :=
  fun A B k m w => let '(a, w') := m w in k a w'.

Definition log (c : Call) : M unit :=
  fun w => (tt, mkWorld (unique w) (blobCache w) (content w) (undoLevels w)
                  (locks w) (calls w ++ [c])).

(** Modelled from the spec: [Id.generate] is not among the sources; it
    "generates a fresh unique identifier", here the prefix and the next
    value of a counter. *)
Definition Id_generate (prefix : string) : M string :=
  fun w =>
    let r := prefix +:+ "_" +:+ pretty (S (unique w)) in
    (r, mkWorld (S (unique w)) (blobCache w) (content w) (undoLevels w)
          (locks w) (calls w ++ [IdGenerate prefix r])).

(** Modelled from the spec: the blob cache is not among the sources;
    create-entry(id, blob, encoded) gives an entry, add-entry registers
    it, and an entry resolves to a URI. *)
Definition cache_create (id : string) (b : Blob) (base64 : string) : M BlobInfo :=
  _ ← log (CacheCreate id b base64); mret (mkBlobInfo id b base64).

Definition cache_add (info : BlobInfo) : M unit :=
  fun w => (tt, mkWorld (unique w) (blobCache w ++ [info]) (content w)
                  (undoLevels w) (locks w) (calls w ++ [CacheAdd info])).

Definition blobUri (info : BlobInfo) : string :=
  "blob:" +:+ info_id info.

Definition createHTML (name : string) (attributes : list (string * string)) : M Html :=
  _ ← log (CreateHTML (mkHtml name attributes)); mret (mkHtml name attributes).

(** Modelled from the spec: the content-insertion API and the undo
    manager are not among the sources.  Inserting puts the markup at the
    insertion point and takes an undo level of its own unless a
    transaction is running; [transact] runs its callback as one
    transaction and takes one level when the outermost one ends. *)
Definition insertContent (h : Html) : M unit :=
  fun w => (tt, mkWorld (unique w) (blobCache w) (content w ++ [h])
                  (if Nat.eqb (locks w) 0 then S (undoLevels w) else undoLevels w)
                  (locks w) (calls w ++ [InsertContent h])).

Definition lock : M unit :=
  fun w => (tt, mkWorld (unique w) (blobCache w) (content w) (undoLevels w)
                  (S (locks w)) (calls w ++ [TransactBegin])).

Definition unlock : M unit :=
  fun w => (tt, mkWorld (unique w) (blobCache w) (content w)
                  (if Nat.eqb (Nat.pred (locks w)) 0 then S (undoLevels w)
                   else undoLevels w)
                  (Nat.pred (locks w)) (calls w ++ [TransactEnd])).

Definition transact {A} (callback : M A) : M A :=
  _ ← lock; r ← callback; _ ← unlock; mret r.

(** How [BlobConversions.blobToBase64(blob)] ends: the promise resolves
    with the encoding, is rejected, or stays pending. *)
Inductive Promise (A : Type) : Type :=
| Resolved (a : A)
| Rejected
| Pending.
Arguments Resolved {A} a.
Arguments Rejected {A}.
Arguments Pending {A}.

(** The callback given to [then] in [addImage]. *)
Definition addImage_then (b : Blob) (base64 : string) : M unit :=
  transact (
    id ← Id_generate "mceu";
    info ← cache_create id b base64;
    _ ← cache_add info;
    img ← createHTML "img" [("src", blobUri info)];
    insertContent img).

(** [addImage(editor, blob)]: the callback runs once the promise has
    resolved, and not otherwise. *)
Definition addImage (blobToBase64 : Blob -> Promise string) (b : Blob) : M unit :=
  match blobToBase64 b with
  | Resolved base64 => addImage_then b base64
  | Rejected => mret tt
  | Pending => mret tt
  end.

(** The [change] handler of the picker. *)
Definition onChange (blobToBase64 : Blob -> Promise string)
    (simulatedEvent : SimulatedEvent) : World -> Result World :=
  fun w =>
    match extractBlob simulatedEvent with
    | Ok (Some b) => Ok (addImage blobToBase64 b w).2
    | Ok None => Ok w
    | TypeError => TypeError
    end.

End ImagePicker.

Import EditorObservable.

(* ===================================================================== *)
(** ** Sample pages *)
(* ===================================================================== *)

Module Samples.

(** The host page is document 0: [html] is its document element, [body]
    the second child of that, and [#root] a [div] in the body that holds
    the bodies of two inline editors. *)
Definition page : Node := mkNode 0 [].
Definition pageBody : Node := mkNode 0 [1; 0].
Definition root : Node := mkNode 0 [0; 1; 0].
Definition bodyA : Node := mkNode 0 [0; 0; 1; 0].
Definition bodyB : Node := mkNode 0 [1; 0; 1; 0].
Definition paragraphInA : Node := mkNode 0 [2; 0; 0; 1; 0].

Definition select (selector : string) : list Node :=
  if String.eqb selector "#root" then [root] else [].

(** An inline editor on [#root] and one with a document of its own. *)
Definition inlineEditor (name : string) (b : Node) : Editor :=
  mkEditor name true false false false true (Some "#root") None None None
    page (Some b) false 0 (Some b) true.

Definition iframeEditor (name : string) (d : nat) : Editor :=
  mkEditor name false false false false true None None None None
    (mkNode d []) (Some (mkNode d [1; 0])) true d (Some (mkNode 0 [d; 1; 0])) true.

Definition editorA : Editor := inlineEditor "A" bodyA.
Definition editorB : Editor := inlineEditor "B" bodyB.

Definition setHidden (e : Editor) : Editor :=
  mkEditor (id e) (inline e) true (readonly e) (removed e) (initialized e)
    (event_root e) (eventRoot e) (delegates e) (_pendingNativeEvents e) (doc e)
    (body e) (body_onload e) (win e) (container e) (dom e).

Definition setReadonly (e : Editor) : Editor :=
  mkEditor (id e) (inline e) (hidden e) true (removed e) (initialized e)
    (event_root e) (eventRoot e) (delegates e) (_pendingNativeEvents e) (doc e)
    (body e) (body_onload e) (win e) (container e) (dom e).

Definition setRemoved (e : Editor) : Editor :=
  mkEditor (id e) (inline e) (hidden e) (readonly e) true (initialized e)
    (event_root e) (eventRoot e) (delegates e) (_pendingNativeEvents e) (doc e)
    (body e) (body_onload e) (win e) (container e) (dom e).

Definition fresh : Global := mkGlobal None [] [] 0.

Definition clickInA : Event := mkEvent paragraphInA 1.

(** ["click"] bound on an iframe editor and on the inline editor A. *)
Definition iframeI : Editor := iframeEditor "I" 1.
Definition boundI : Global * Editor :=
  bindEventDelegate select fresh iframeI "click".
Definition boundA : Global * Editor :=
  bindEventDelegate select fresh editorA "click".
Definition clickInI : Event := mkEvent (mkNode 1 [4; 1; 0]) 2.

End Samples.

Import ImagePicker.

(* ===================================================================== *)
(** ** Vocabulary of the properties *)
(* ===================================================================== *)

(** [a] is [n] or one of its ancestors. *)
Inductive inclusiveAncestor (a : Node) : Node -> Prop :=
| ancestor_self : inclusiveAncestor a a
| ancestor_parent n p :
    parentNode n = Some p -> inclusiveAncestor a p -> inclusiveAncestor a n.

(** The test of the loop, [body === target || DOM.isChildOf(target, body)]. *)
Definition holdsTarget (e : Event) (ed : Editor) : bool :=
  bool_decide (body ed = Some (target e)) || isChildOf (target e) (body ed).

(** The delegate registered on the editor under a name, if any. *)
Definition registered (editor : Editor) (name : string) : option Delegate :=
  ds ← delegates editor; ds !! name.

(** The first statement of [bindEventDelegate]. *)
Definition initDelegates (editor : Editor) : Editor :=
  match delegates editor with
  | None => set_delegates (Some ∅) editor
  | Some _ => editor
  end.

(** The shared registry once [bindEventDelegate] has made sure it is there. *)
Definition initRegistry (g : Global) (editor : Editor) : Global :=
  match customEventRootDelegates g with
  | None => mkGlobal (Some ∅) (listeners g) (removeEditorHandlers g ++ [id editor]) (nextFn g)
  | Some _ => g
  end.

(** Every private listener of the editor is the delegate that the editor
    has registered under the listener's name, bound where
    [getEventTarget] points for that name. *)
Definition privateRegistered (select : string -> list Node) (g : Global)
    (self : Editor) : Prop :=
  forall l n,
    l ∈ listeners g -> kind (l_func l) = EditorDelegate (id self) n ->
    exists ds,
      delegates self = Some ds
      /\ ds !! l_name l = Some (l_func l)
      /\ TNode <$> (getEventTarget select self (l_name l)).1 = Some (l_target l).

(** How often a kind of call occurs. *)
Definition occurrences (p : Call -> bool) (cs : list Call) : nat :=
  List.length (List.filter p cs).

Definition isTransactBegin (c : Call) : bool :=
  match c with TransactBegin => true | _ => false end.
Definition isTransactEnd (c : Call) : bool :=
  match c with TransactEnd => true | _ => false end.
Definition isCacheCreate (c : Call) : bool :=
  match c with CacheCreate _ _ _ => true | _ => false end.
Definition isCacheAdd (c : Call) : bool :=
  match c with CacheAdd _ => true | _ => false end.
Definition isInsertContent (c : Call) : bool :=
  match c with InsertContent _ => true | _ => false end.
Definition isIdGenerate (c : Call) : bool :=
  match c with IdGenerate _ _ => true | _ => false end.

(** [w] occurs somewhere in [s]. *)
Definition hasSubstring (w s : string) : Prop :=
  exists pre post, s = pre +:+ w +:+ post.

(** The names of the pattern in [getEventTarget], said without the
    pattern: they begin with ["mouse"], or have one of the other six
    words somewhere in them. *)
Definition documentElementName (eventName : string) : Prop :=
  (exists post, eventName = "mouse" +:+ post)
  \/ exists w,
       w ∈ ["touch"; "click"; "contextmenu"; "drop"; "dragover"; "dragend"]
       /\ hasSubstring w eventName.

(** The names [toggleNativeEvent] does not turn away. *)
Definition nativeName (name : string) : bool :=
  negb (String.eqb name "focus" || String.eqb name "blur").

(** A run of [toggleNativeEvent] calls on one editor, as the event
    dispatcher makes them when listeners come and go; a throw ends it. *)
Definition toggleMany (select : string -> list Node) (g : Global)
    (self : Editor) (toggles : list (string * bool))
  : Result (Global * Editor) :=
  foldl
    (fun acc toggle =>
       match acc with
       | Ok (g, self) => toggleNativeEvent select g self toggle.1 toggle.2
       | TypeError => TypeError
       end)
    (Ok (g, self)) toggles.

(** The editor with [names] put at the end of its queue of pending
    names. *)
Definition queueNames (names : list string) (self : Editor) : Editor :=
  match names with
  | [] => self
  | _ :: _ =>
      set_pendingNativeEvents
        (Some (default [] (_pendingNativeEvents self) ++ names)%list) self
  end.

(** [bindEventDelegate] has nothing left to do for the name: the editor
    has its [delegates] object and either a delegate of the name, or is
    removed, or sits on an event root whose shared registry has the name
    while the event target of the name is resolved. *)
Definition bound (select : string -> list Node) (g : Global) (editor : Editor)
    (eventName : string) : Prop :=
  is_Some (delegates editor)
  /\ (hasDelegate editor eventName = true
      \/ removed editor = true
      \/ (truthy (getEventRoot editor) = true
          /\ (getEventTarget select editor eventName).2 = editor
          /\ exists registry,
               customEventRootDelegates g = Some registry
               /\ is_Some (registry !! eventName))).


(* ===================================================================== *)
(** ** Plain objects and strings *)
(* ===================================================================== *)

Lemma getMember_own (object : gmap string Delegate) name d :
  object !! name = Some d -> getMember object name = Some (OwnDelegate d).
Proof. unfold getMember. by intros ->. Qed.

Lemma hasMember_own (object : gmap string Delegate) name :
  is_Some (object !! name) -> hasMember object name = true.
Proof.
  intros [d Hd]. unfold hasMember. rewrite (getMember_own _ _ _ Hd).
  by apply bool_decide_eq_true_2.
Qed.

Lemma hasMember_false (object : gmap string Delegate) name :
  hasMember object name = false
  <-> object !! name = None /\ inherited name = false.
Proof.
  unfold hasMember, getMember. destruct (object !! name) as [d|].
  - rewrite bool_decide_eq_false. split; [|by intros [? _]].
    intros Hno. by destruct Hno.
  - destruct (inherited name).
    + rewrite bool_decide_eq_false. split; [|by intros [_ ?]].
      intros Hno. by destruct Hno.
    + rewrite bool_decide_eq_false. split; [done|]. by intros _ [? ?].
Qed.

Lemma hasMember_not_inherited (object : gmap string Delegate) name :
  inherited name = false ->
  hasMember object name = bool_decide (is_Some (object !! name)).
Proof.
  intros Hname. unfold hasMember, getMember. rewrite Hname.
  destruct (object !! name) as [d|].
  - by rewrite !bool_decide_eq_true_2.
  - rewrite !bool_decide_eq_false_2; [done|by intros [? ?]..].
Qed.

Lemma hasMember_inherited (object : gmap string Delegate) name :
  inherited name = true -> hasMember object name = true.
Proof.
  intros Hname. unfold hasMember, getMember. rewrite Hname.
  apply bool_decide_eq_true_2. by destruct (object !! name).
Qed.

Lemma hasMember_true (object : gmap string Delegate) name :
  hasMember object name = true
  <-> is_Some (object !! name) \/ inherited name = true.
Proof.
  destruct (inherited name) eqn:Hname.
  - rewrite hasMember_inherited by done. split; [by right | done].
  - rewrite hasMember_not_inherited, bool_decide_eq_true by done.
    split; [by left | by intros [?|?]].
Qed.

Lemma prefix_app (p s : string) :
  String.prefix p s = true <-> exists post, s = p +:+ post.
Proof.
  revert s. induction p as [|c p IH]; intros s; simpl.
  - split; [by exists s | by destruct s].
  - destruct s as [|c' s]; simpl.
    + split; [done | by intros [post ?]].
    + destruct (Ascii.ascii_dec c c') as [->|Hne].
      * rewrite IH. split; intros [post Hpost]; exists post.
        -- by rewrite Hpost.
        -- simpl in Hpost. by injection Hpost.
      * split; [done|]. intros [post Hpost]. simpl in Hpost.
        injection Hpost as Hc _. by destruct Hne.
Qed.

#[local] Arguments String.prefix : simpl never.

Lemma contains_spec (w s : string) :
  contains w s = true <-> hasSubstring w s.
Proof.
  split.
  - induction s as [|c s IH]; simpl; rewrite orb_true_iff.
    + intros [Hp|?]; [|done]. apply prefix_app in Hp as [post ->].
      by exists "", post.
    + intros [Hp|Hc].
      * apply prefix_app in Hp as [post ->]. by exists "", post.
      * destruct (IH Hc) as (pre & post & ->). by exists (String c pre), post.
  - intros (pre & post & ->). induction pre as [|c pre IH].
    + assert (Hp : String.prefix w (w +:+ post) = true)
        by (apply prefix_app; by exists post).
      simpl. destruct (w +:+ post); simpl; by rewrite Hp.
    + simpl. rewrite orb_true_iff. by right.
Qed.

Lemma documentElementEvent_name (eventName : string) :
  documentElementEvent eventName = true <-> documentElementName eventName.
Proof.
  unfold documentElementEvent, documentElementName.
  rewrite !orb_true_iff, prefix_app, !contains_spec. split.
  - intros [[[[[[H|H]|H]|H]|H]|H]|H]; [by left|right; eexists; split; [|exact H]..];
      set_solver.
  - intros [H|(w & Hw & H)]; [tauto|].
    repeat (apply elem_of_cons in Hw as [->|Hw]; [tauto|]).
    by apply elem_of_nil in Hw.
Qed.

(* ===================================================================== *)
(** ** getEventTarget *)
(* ===================================================================== *)

Lemma set_eventRoot_same (editor : Editor) :
  set_eventRoot (eventRoot editor) editor = editor.
Proof. by destruct editor. Qed.

Lemma truthy_Some (sel : string) : sel ≠ "" -> truthy (Some sel) = true.
Proof. destruct sel; [congruence | done]. Qed.

Lemma truthy_inv (o : option string) :
  truthy o = true -> exists sel, o = Some sel /\ sel ≠ "".
Proof.
  destruct o as [[|c s]|]; simpl; try discriminate.
  intros _. exists (String c s). split; [done | discriminate].
Qed.

(** The names that go to the document element. *)
Example documentElementEvent_names :
  List.map documentElementEvent
    ["mousedown"; "mouseup"; "touchstart"; "click"; "dblclick"; "contextmenu";
     "drop"; "dragover"; "dragend"]
  = [true; true; true; true; true; true; true; true; true]
  /\ List.map documentElementEvent
         ["keydown"; "input"; "dragstart"; "drag"; "dragenter"; "dragleave";
        "pointerdown"; "pointerup"; "pointermove"; "selectionchange"]
     = [false; false; false; false; false; false; false; false; false; false].
Proof. split; reflexivity. Qed.

(** A resolved event root stays: whatever the selector finds later, the
    editor answers with the element it has. *)
Lemma getEventTarget_cached select select' editor eventName node editor' :
  getEventTarget select editor eventName = (node, editor') ->
  is_Some (eventRoot editor') ->
  getEventTarget select' editor' eventName = (node, editor').
Proof.
  unfold getEventTarget. intros Hget Hsome.
  destruct (String.eqb eventName "selectionchange"); [by inversion Hget; subst|].
  destruct (negb (inline editor) && documentElementEvent eventName) eqn:Hdoc.
  - inversion Hget; subst. by rewrite Hdoc.
  - unfold getEventRoot in *.
    destruct (event_root editor) as [sel|] eqn:Hroot.
    + destruct (truthy (Some sel)) eqn:Htr.
      * destruct (eventRoot editor) as [r|] eqn:Hr.
        -- injection Hget as <- <-. rewrite Hdoc, Hroot, Htr, Hr. simpl.
           by rewrite Hr.
        -- injection Hget as <- <-. simpl in *. rewrite Hdoc, Hroot, Htr.
           destruct Hsome as [r Hr']. by rewrite Hr'.
      * inversion Hget; subst. by rewrite Hdoc, Hroot, Htr.
    + inversion Hget; subst. by rewrite Hdoc, Hroot.
Qed.

(** C3. [getEventTarget] answers, in this order: the document for
    ["selectionchange"]; the document element when the editor is not
    inline and the name begins with ["mouse"] or has ["touch"],
    ["click"], ["contextmenu"], ["drop"], ["dragover"] or ["dragend"] in
    it, and for no other name; with an event root set, the element the
    editor has cached for it, resolved from the selector the first time
    and kept on the editor (a resolved element is not looked up again);
    and the body otherwise. *)
Theorem getEventTarget_cases select editor eventName node editor' :
  getEventTarget select editor eventName = (node, editor') ->
  (eventName = "selectionchange" ->
     node = Some (doc editor) /\ editor' = editor)
  /\ (eventName ≠ "selectionchange" ->
      inline editor = false -> documentElementName eventName ->
      node = Some (documentElement (doc editor)) /\ editor' = editor)
  /\ (eventName ≠ "selectionchange" ->
      inline editor = true \/ ~ documentElementName eventName ->
      forall sel, getEventRoot editor = Some sel -> sel ≠ "" ->
      node = match eventRoot editor with
             | Some r => Some r
             | None => head (select sel)
             end
      /\ editor' = set_eventRoot node editor
      /\ (is_Some node ->
          forall select', getEventTarget select' editor' eventName = (node, editor')))
  /\ (eventName ≠ "selectionchange" ->
      inline editor = true \/ ~ documentElementName eventName ->
      truthy (getEventRoot editor) = false ->
      node = body editor /\ editor' = editor).
Proof.
  intros Hget. pose proof Hget as Hget0. unfold getEventTarget in Hget.
  destruct (String.eqb_spec eventName "selectionchange") as [Heq|Hne].
  { inversion Hget; subst. repeat split; try done. }
  assert (Hcond : forall b, (inline editor = true \/ ~ documentElementName eventName)
            -> negb (inline editor) && documentElementEvent eventName = b -> b = false).
  { intros b [Hi|Hd] <-; [by rewrite Hi|].
    rewrite <- documentElementEvent_name in Hd. apply not_true_is_false in Hd.
    by rewrite Hd, andb_false_r. }
  split; [done|]. split; [|split].
  - intros _ Hi Hd. apply documentElementEvent_name in Hd.
    rewrite Hi, Hd in Hget. by inversion Hget.
  - intros _ Hor sel Hsel Hnz.
    rewrite (Hcond _ Hor eq_refl), Hsel, (truthy_Some _ Hnz) in Hget.
    cbv zeta in Hget.
    destruct (eventRoot editor) as [r|] eqn:Hr.
    + rewrite Hr in Hget. injection Hget as <- <-.
      split; [done|]. split; [by rewrite <- Hr, set_eventRoot_same|].
      intros _ select'. eapply getEventTarget_cached; [exact Hget0 | by rewrite Hr].
    + simpl in Hget. injection Hget as <- <-. split; [done|]. split; [done|].
      intros Hsome select'. eapply getEventTarget_cached; [exact Hget0 | done].
  - intros _ Hor Htr. rewrite (Hcond _ Hor eq_refl) in Hget.
    destruct (getEventRoot editor) as [sel|]; [rewrite Htr in Hget|];
      by inversion Hget.
Qed.

Lemma getEventTarget_cases_witness :
  getEventTarget Samples.select Samples.editorA "keydown"
  = (Some Samples.root, set_eventRoot (Some Samples.root) Samples.editorA)
  /\ forall select',
       getEventTarget select' (set_eventRoot (Some Samples.root) Samples.editorA) "keydown"
       = (Some Samples.root, set_eventRoot (Some Samples.root) Samples.editorA).
Proof.
  split; [reflexivity|].
  pose proof (getEventTarget_cases Samples.select Samples.editorA "keydown"
                (Some Samples.root)
                (set_eventRoot (Some Samples.root) Samples.editorA) eq_refl)
    as (_ & _ & Hroot & _).
  destruct (Hroot ltac:(discriminate) (or_introl eq_refl) "#root" eq_refl
              ltac:(discriminate)) as (_ & _ & Hcached).
  apply Hcached. by eexists.
Defined.

(** ["dragstart"] and ["pointerdown"] on an iframe editor go to the
    body, not to the document element. *)
Lemma getEventTarget_dragstart_pointerdown :
  inline Samples.iframeI = false
  /\ getEventTarget Samples.select Samples.iframeI "dragstart"
     = (body Samples.iframeI, Samples.iframeI)
  /\ getEventTarget Samples.select Samples.iframeI "pointerdown"
     = (body Samples.iframeI, Samples.iframeI)
  /\ body Samples.iframeI ≠ Some (documentElement (doc Samples.iframeI)).
Proof. repeat split; try reflexivity. discriminate. Qed.

(* ===================================================================== *)
(** ** fireEvent *)
(* ===================================================================== *)

(** C4. A hidden or read-only editor gets no [fire]; a read-only one gets
    [preventReadOnlyEvents] in its place; any other editor gets the event
    fired. *)
Theorem fireEvent_gating editor eventName e :
  (hidden editor = true \/ readonly editor = true ->
     forall a, a ∈ fireEvent editor eventName e ->
               forall ed n e', a ≠ Fire ed n e')
  /\ (readonly editor = true ->
      fireEvent editor eventName e = [PreventReadOnlyEvents (id editor) e])
  /\ (hidden editor = true -> readonly editor = false ->
      fireEvent editor eventName e = [])
  /\ (hidden editor = false -> readonly editor = false ->
      fireEvent editor eventName e = [Fire (id editor) eventName e]).
Proof.
  unfold fireEvent, isListening, isReadOnly.
  destruct (hidden editor), (readonly editor); simpl;
    (split; [|split; [|split]]); try done;
    try (intros [?|?]; done);
    intros _ a Ha ed n e' ->;
    try (by apply elem_of_nil in Ha);
    apply list_elem_of_singleton in Ha; discriminate.
Qed.

Lemma fireEvent_gating_witness :
  fireEvent (Samples.setReadonly Samples.editorA) "click" Samples.clickInA
  = [PreventReadOnlyEvents "A" Samples.clickInA]
  /\ fireEvent (Samples.setHidden Samples.editorA) "click" Samples.clickInA = []
  /\ fireEvent Samples.editorA "click" Samples.clickInA
     = [Fire "A" "click" Samples.clickInA].
Proof.
  split; [|split].
  - apply (fireEvent_gating (Samples.setReadonly Samples.editorA)). reflexivity.
  - apply (fireEvent_gating (Samples.setHidden Samples.editorA)); reflexivity.
  - apply (fireEvent_gating Samples.editorA "click"); reflexivity.
Defined.

(* ===================================================================== *)
(** ** The delegate of the custom event root *)
(* ===================================================================== *)

Lemma isChildOf_path_spec d p a :
  isChildOf_path d p (Some a) = true <-> inclusiveAncestor a (mkNode d p).
Proof.
  induction p as [|i p IH]; simpl.
  - case_decide as Heq.
    + injection Heq as ->. split; [constructor | done].
    + split; [done|]. intros Hanc. inversion Hanc; subst; [done|].
      discriminate.
  - case_decide as Heq.
    + injection Heq as ->. split; [constructor | done].
    + rewrite IH. split.
      * intros Hanc. by eapply ancestor_parent.
      * intros Hanc. inversion Hanc as [|n q Hpar Hq]; subst; [done|].
        unfold parentNode in Hpar. simpl in Hpar. by injection Hpar as <-.
Qed.

Lemma isChildOf_spec node a :
  isChildOf node (Some a) = true <-> inclusiveAncestor a node.
Proof. destruct node as [d p]. apply isChildOf_path_spec. Qed.

Lemma isChildOf_None node : isChildOf node None = false.
Proof.
  destruct node as [d p]. unfold isChildOf. simpl.
  induction p as [|i p IH]; simpl; repeat case_decide; done.
Qed.

Lemma holdsTarget_spec e ed :
  holdsTarget e ed = true
  <-> exists b, body ed = Some b /\ inclusiveAncestor b (target e).
Proof.
  unfold holdsTarget. destruct (body ed) as [b|].
  - rewrite orb_true_iff, bool_decide_eq_true, isChildOf_spec. split.
    + intros [Heq|Hanc]; exists b; split; try done.
      injection Heq as ->. constructor.
    + intros (b' & Heq & Hanc). injection Heq as <-. by right.
  - rewrite isChildOf_None. simpl. split; [done|]. by intros (b & ? & _).
Qed.

Lemma customRootLoop_take editors eventName e i :
  i <= List.length editors ->
  customRootLoop editors eventName e i
  = flat_map (fun ed => fireEvent ed eventName e)
      (List.filter (holdsTarget e) (rev (take i editors))).
Proof.
  induction i as [|i IH]; intros Hle; [done|].
  destruct (lookup_lt_is_Some_2 editors i ltac:(lia)) as [ed Hed].
  simpl. rewrite Hed, (take_S_r _ _ _ Hed), rev_unit. simpl.
  fold (holdsTarget e ed). rewrite IH by lia.
  by destruct (holdsTarget e ed).
Qed.

Lemma fireEvent_Fire ed eventName e i n e' :
  Fire i n e' ∈ fireEvent ed eventName e
  <-> i = id ed /\ n = eventName /\ e' = e
      /\ hidden ed = false /\ readonly ed = false.
Proof.
  unfold fireEvent, isListening, isReadOnly.
  destruct (hidden ed), (readonly ed); simpl;
    rewrite ?list_elem_of_singleton, ?elem_of_nil; split;
    try (intros (_ & _ & _ & ? & ?); done); try done;
    try (intros [= -> -> ->]; done).
  by intros (-> & -> & -> & _).
Qed.

Lemma fireEvent_Prevent ed eventName e i e' :
  PreventReadOnlyEvents i e' ∈ fireEvent ed eventName e
  <-> i = id ed /\ e' = e /\ readonly ed = true.
Proof.
  unfold fireEvent, isListening, isReadOnly.
  destruct (hidden ed), (readonly ed); simpl;
    rewrite ?list_elem_of_singleton, ?elem_of_nil; split;
    try (intros (_ & _ & ?); done); try done;
    try (intros [= -> ->]; done);
    by intros (-> & -> & _).
Qed.

Lemma customRootDelegate_elem editors eventName e a :
  a ∈ customRootDelegate editors eventName e
  <-> exists ed, ed ∈ editors /\ holdsTarget e ed = true
                 /\ a ∈ fireEvent ed eventName e.
Proof.
  unfold customRootDelegate. rewrite customRootLoop_take by done.
  rewrite firstn_all, list_elem_of_In, in_flat_map. split.
  - intros (ed & Hin & Ha). apply filter_In in Hin as [Hin Hholds].
    apply in_rev in Hin. exists ed. by rewrite !list_elem_of_In.
  - intros (ed & Hin & Hholds & Ha). exists ed. rewrite filter_In, <- in_rev.
    by rewrite <- !list_elem_of_In.
Qed.

(** C1. The shared delegate goes through all live editors, last one
    first, and hands the event to [fireEvent] for those whose body is the
    target or an ancestor of it.  So the event is fired on exactly the
    live editors that hold the target and are neither hidden nor
    read-only, and the read-only ones that hold it get
    [preventReadOnlyEvents]; no other editor gets anything. *)
Theorem customRootDelegate_dispatch editors eventName e :
  customRootDelegate editors eventName e
  = flat_map (fun ed => fireEvent ed eventName e)
      (List.filter (holdsTarget e) (rev editors))
  /\ (forall i n e',
        Fire i n e' ∈ customRootDelegate editors eventName e
        <-> n = eventName /\ e' = e
            /\ exists ed, ed ∈ editors /\ id ed = i
                 /\ (exists b, body ed = Some b /\ inclusiveAncestor b (target e))
                 /\ hidden ed = false /\ readonly ed = false)
  /\ (forall i e',
        PreventReadOnlyEvents i e' ∈ customRootDelegate editors eventName e
        <-> e' = e
            /\ exists ed, ed ∈ editors /\ id ed = i
                 /\ (exists b, body ed = Some b /\ inclusiveAncestor b (target e))
                 /\ readonly ed = true).
Proof.
  split; [|split].
  - unfold customRootDelegate. rewrite customRootLoop_take by done.
    by rewrite firstn_all.
  - intros i n e'. rewrite customRootDelegate_elem. split.
    + intros (ed & Hin & Hholds & Ha).
      apply fireEvent_Fire in Ha as (-> & -> & -> & Hh & Hr).
      apply holdsTarget_spec in Hholds. split; [done|]. split; [done|].
      by exists ed.
    + intros (-> & -> & ed & Hin & <- & Hholds & Hh & Hr).
      exists ed. split; [done|]. split; [by apply holdsTarget_spec|].
      by apply fireEvent_Fire.
  - intros i e'. rewrite customRootDelegate_elem. split.
    + intros (ed & Hin & Hholds & Ha).
      apply fireEvent_Prevent in Ha as (-> & -> & Hr).
      apply holdsTarget_spec in Hholds. split; [done|]. by exists ed.
    + intros (-> & ed & Hin & <- & Hholds & Hr).
      exists ed. split; [done|]. split; [by apply holdsTarget_spec|].
      by apply fireEvent_Prevent.
Qed.

(** The body of a hidden live editor holds the target, and the shared
    delegate fires nothing on it. *)
Lemma customRootDelegate_hidden_editor :
  Samples.setHidden Samples.editorA ∈ [Samples.setHidden Samples.editorA; Samples.editorB]
  /\ body (Samples.setHidden Samples.editorA) = Some Samples.bodyA
  /\ inclusiveAncestor Samples.bodyA (target Samples.clickInA)
  /\ customRootDelegate [Samples.setHidden Samples.editorA; Samples.editorB]
       "click" Samples.clickInA = []
  /\ Fire "A" "click" Samples.clickInA
     ∉ customRootDelegate [Samples.setHidden Samples.editorA; Samples.editorB]
         "click" Samples.clickInA.
Proof.
  split; [set_solver|]. split; [reflexivity|].
  split; [eapply ancestor_parent; [reflexivity | constructor]|].
  split; [reflexivity|]. intros Hin. by apply elem_of_nil in Hin.
Qed.

(* ===================================================================== *)
(** ** toggleNativeEvent and unbindAllNativeEvents *)
(* ===================================================================== *)

(** C8. Toggling ["focus"] or ["blur"], on or off, returns at once: no
    delegate is installed and the editor, its delegates and its pending
    names included, and the module state stay as they are. *)
Theorem toggleNativeEvent_focus_blur select g self state :
  toggleNativeEvent select g self "focus" state = Ok (g, self)
  /\ toggleNativeEvent select g self "blur" state = Ok (g, self).
Proof. split; reflexivity. Qed.

Lemma registered_none_inv editor :
  (forall name, registered editor name = None) ->
  delegates editor = None \/ delegates editor = Some ∅.
Proof.
  unfold registered. destruct (delegates editor) as [ds|]; [|by left].
  intros Hnone. right. f_equal. by apply map_empty.
Qed.

#[local] Arguments unbind : simpl never.
#[local] Arguments bind : simpl never.

Lemma unbind_elem (t : option EventTarget) name (func : option Delegate) ls l :
  l ∈ unbind t name func ls
  <-> l ∈ ls /\ forall t', t = Some t' -> selected t' name func l = false.
Proof.
  unfold unbind. destruct t as [t'|].
  - rewrite !list_elem_of_In, filter_In, negb_true_iff. split.
    + intros [Hin Hsel]. split; [done|]. by intros ? [= <-].
    + intros [Hin Hsel]. split; [done|]. by apply Hsel.
  - split; [by intros ?; split | by intros [? _]].
Qed.

Lemma unbind_subset (t : option EventTarget) name (func : option Delegate) ls l :
  l ∈ unbind t name func ls -> l ∈ ls.
Proof. rewrite unbind_elem. by intros [? _]. Qed.

Lemma unbind_keeps (t : option EventTarget) name (func : option Delegate) ls l :
  l ∈ ls -> t ≠ Some (l_target l) -> l ∈ unbind t name func ls.
Proof.
  intros Hin Hne. apply unbind_elem. split; [done|]. intros t' ->.
  unfold selected. rewrite bool_decide_eq_false_2; [done|]. congruence.
Qed.

Lemma unbindMember_subset (t : option EventTarget) name callback ls l :
  l ∈ unbindMember t name callback ls -> l ∈ ls.
Proof.
  destruct callback as [[d|inheritedName]|]; simpl; [|done|];
    apply unbind_subset.
Qed.

Lemma unbindMember_keeps (t : option EventTarget) name callback ls l :
  l ∈ ls -> l_name l ≠ name \/ Some (l_target l) ≠ t ->
  l ∈ unbindMember t name callback ls.
Proof.
  intros Hl Hor.
  assert (Hsel : forall func t', t = Some t' ->
                   selected t' (Some name) func l = false).
  { intros func t' ->. unfold selected. destruct Hor as [Hn|Ht].
    - rewrite (bool_decide_eq_false_2 (l_name l = name)) by done.
      by rewrite andb_false_r.
    - rewrite (bool_decide_eq_false_2 (l_target l = t')); [done|]. congruence. }
  destruct callback as [[d|inheritedName]|]; simpl; [|done|];
    apply unbind_elem; (split; [done|]); apply Hsel.
Qed.

(** C9. On an editor without registered delegates
    [unbindAllNativeEvents] returns normally and the editor has no
    registered delegate afterwards.  An editor without a [delegates]
    object is left without one, so its delegate state is untouched; an
    empty [delegates] object is deleted.  The shared registry is the
    same, nothing else of the editor changes but that, for an iframe
    editor with a body, [onload] is cleared; no listener is added, and
    those away from the editor's window, document, body and container
    stay. *)
Theorem unbindAllNativeEvents_no_delegates select g self :
  (forall name, registered self name = None) ->
  exists g' self',
    unbindAllNativeEvents select g self = Ok (g', self')
    /\ delegates self' = None
    /\ (delegates self = None -> delegates self' = delegates self)
    /\ (forall name, registered self' name = None)
    /\ customEventRootDelegates g' = customEventRootDelegates g
    /\ removeEditorHandlers g' = removeEditorHandlers g
    /\ nextFn g' = nextFn g
    /\ self' = (if negb (inline self) && bool_decide (is_Some (body self)) && dom self
                then set_body_onload false (set_delegates None self)
                else set_delegates None self)
    /\ (forall l, l ∈ listeners g' -> l ∈ listeners g)
    /\ (forall l, l ∈ listeners g ->
          l_target l ≠ TWindow (win self) -> l_target l ≠ TNode (doc self) ->
          Some (l_target l) ≠ TNode <$> body self ->
          Some (l_target l) ≠ TNode <$> container self ->
          l ∈ listeners g').
Proof.
  intros Hnone. pose proof (registered_none_inv _ Hnone) as Hds.
  assert (Hstep : (match delegates self with
            | Some ds =>
                match foldl (unbindDelegate select) (Ok (listeners g, self))
                        (map_to_list ds) with
                | Ok (ls, self0) => Ok (ls, set_delegates None self0)
                | TypeError => TypeError
                end
            | None => Ok (listeners g, self)
            end) = Ok (listeners g, set_delegates None self)).
  { destruct Hds as [Hds|Hds]; rewrite Hds.
    - f_equal. f_equal. destruct self. simpl in Hds. by subst.
    - by rewrite map_to_list_empty. }
  unfold unbindAllNativeEvents. rewrite Hstep. simpl.
  destruct (negb (inline self) && bool_decide (is_Some (body self)) && dom self);
    destruct (dom self); simpl; eexists _, _; (split; [reflexivity|]);
    simpl; (split; [done|]); (split; [by intros ->|]);
    do 5 (split; [done|]); split.
  all: try (intros l Hl; by repeat apply unbind_subset in Hl).
  all: intros l Hl Hw Hd Hb Hc; repeat apply unbind_keeps; try done; congruence.
Qed.

Lemma unbindAllNativeEvents_no_delegates_witness :
  exists g' self',
    unbindAllNativeEvents Samples.select Samples.fresh Samples.editorA
    = Ok (g', self')
    /\ self' = Samples.editorA
    /\ customEventRootDelegates g' = None.
Proof.
  destruct (unbindAllNativeEvents_no_delegates Samples.select Samples.fresh
              Samples.editorA ltac:(reflexivity))
    as (g' & self' & Hrun & _ & _ & _ & Hreg & _ & _ & Hself & _).
  exists g', self'. split; [exact Hrun|]. split; [exact Hself | exact Hreg].
Defined.

(** An editor with an empty [delegates] object has no registered
    delegate; [unbindAllNativeEvents] deletes the object, and toggling
    ["click"] off, which returned before, throws afterwards. *)
Lemma unbindAllNativeEvents_deletes_delegates :
  delegates (set_delegates (Some ∅) Samples.iframeI) = Some ∅
  /\ registered (set_delegates (Some ∅) Samples.iframeI) "click" = None
  /\ unbindAllNativeEvents Samples.select Samples.fresh
       (set_delegates (Some ∅) Samples.iframeI)
     = Ok (Samples.fresh, set_body_onload false Samples.iframeI)
  /\ delegates (set_body_onload false Samples.iframeI) = None
  /\ toggleNativeEvent Samples.select Samples.fresh
       (set_delegates (Some ∅) Samples.iframeI) "click" false
     = Ok (Samples.fresh, set_delegates (Some ∅) Samples.iframeI)
  /\ toggleNativeEvent Samples.select Samples.fresh
       (set_body_onload false Samples.iframeI) "click" false
     = TypeError.
Proof. repeat split; reflexivity. Qed.

(* ===================================================================== *)
(** ** bindEventDelegate *)
(* ===================================================================== *)

Lemma initDelegates_delegates editor :
  delegates (initDelegates editor) = Some (default ∅ (delegates editor)).
Proof. unfold initDelegates. by destruct (delegates editor) eqn:Hds. Qed.

Lemma initDelegates_idem editor :
  initDelegates (initDelegates editor) = initDelegates editor.
Proof.
  unfold initDelegates at 1. by rewrite initDelegates_delegates.
Qed.

Lemma initDelegates_set editor :
  initDelegates editor = set_delegates (Some (default ∅ (delegates editor))) editor.
Proof.
  unfold initDelegates. destruct editor as [? ? ? ? ? ? ? ? [ds|] ? ? ? ? ? ? ?]; done.
Qed.

Lemma hasDelegate_init editor eventName :
  hasDelegate (initDelegates editor) eventName = hasDelegate editor eventName.
Proof. unfold hasDelegate. by rewrite initDelegates_delegates. Qed.

Lemma hasDelegate_false editor eventName :
  hasDelegate editor eventName = false
  <-> default ∅ (delegates editor) !! eventName = None
      /\ inherited eventName = false.
Proof. apply hasMember_false. Qed.

Lemma hasDelegate_insert d ds editor eventName :
  hasDelegate (set_delegates (Some (<[eventName := d]> ds)) editor) eventName
  = true.
Proof.
  unfold hasDelegate. simpl. apply hasMember_own. by rewrite lookup_insert_eq.
Qed.

Lemma getEventTarget_editor select editor eventName :
  exists r, (getEventTarget select editor eventName).2 = set_eventRoot r editor.
Proof.
  exists (eventRoot (getEventTarget select editor eventName).2).
  unfold getEventTarget.
  destruct (String.eqb eventName "selectionchange");
    [by rewrite set_eventRoot_same|].
  destruct (negb (inline editor) && documentElementEvent eventName);
    [by rewrite set_eventRoot_same|].
  destruct (getEventRoot editor) as [sel|]; [|by rewrite set_eventRoot_same].
  destruct (truthy (Some sel)); [|by rewrite set_eventRoot_same].
  destruct (eventRoot editor) eqn:Hr; simpl; [|done].
  by rewrite Hr, <- Hr, set_eventRoot_same.
Qed.

Lemma getEventTarget_idem select editor eventName t editor' :
  getEventTarget select editor eventName = (t, editor') ->
  getEventTarget select editor' eventName = (t, editor').
Proof.
  intros Hget. destruct (eventRoot editor') as [r|] eqn:Hr.
  { eapply getEventTarget_cached; [exact Hget | by rewrite Hr]. }
  revert Hget. unfold getEventTarget.
  destruct (String.eqb eventName "selectionchange"); [by intros [= <- <-]|].
  destruct (negb (inline editor) && documentElementEvent eventName) eqn:Hdoc.
  { intros [= <- <-]. by rewrite Hdoc. }
  unfold getEventRoot.
  destruct (event_root editor) as [sel|] eqn:Hsel.
  - destruct (truthy (Some sel)) eqn:Htr.
    + destruct (eventRoot editor) as [r|] eqn:Hr0; simpl.
      * intros [= <- <-]. congruence.
      * intros [= <- <-]. simpl in *. rewrite Hdoc, Hsel, Htr.
        by destruct (head (select sel)).
    + intros [= <- <-]. by rewrite Hdoc, Hsel, Htr.
  - intros [= <- <-]. by rewrite Hdoc, Hsel.
Qed.

(** The four ways through [bindEventDelegate]. *)
Lemma bindEventDelegate_skip select g editor eventName :
  hasDelegate editor eventName || removed editor = true ->
  bindEventDelegate select g editor eventName = (g, initDelegates editor).
Proof.
  intros Hskip. unfold bindEventDelegate. fold (initDelegates editor).
  rewrite hasDelegate_init.
  replace (removed (initDelegates editor)) with (removed editor)
    by (by rewrite initDelegates_set).
  by rewrite Hskip.
Qed.

Lemma bindEventDelegate_private select g editor eventName t editorT :
  hasDelegate editor eventName || removed editor = false ->
  getEventTarget select (initDelegates editor) eventName = (t, editorT) ->
  truthy (getEventRoot editor) = false ->
  bindEventDelegate select g editor eventName
  = let delegate := mkDelegate (nextFn g) (EditorDelegate (id editor) eventName) in
    (mkGlobal (customEventRootDelegates g)
       (bind (TNode <$> t) eventName delegate (listeners g))
       (removeEditorHandlers g) (S (nextFn g)),
     set_delegates (Some (<[eventName := delegate]> (default ∅ (delegates editor))))
       editorT).
Proof.
  intros Hskip Hget Hroot. unfold bindEventDelegate. fold (initDelegates editor).
  rewrite hasDelegate_init.
  replace (removed (initDelegates editor)) with (removed editor)
    by (by rewrite initDelegates_set).
  rewrite Hskip, Hget.
  destruct (getEventTarget_editor select (initDelegates editor) eventName) as [r Hr].
  rewrite Hget in Hr. simpl in Hr. subst editorT.
  replace (getEventRoot (set_eventRoot r (initDelegates editor)))
    with (getEventRoot editor) by (by rewrite initDelegates_set).
  rewrite Hroot. simpl. by rewrite initDelegates_delegates, initDelegates_set.
Qed.

Lemma bindEventDelegate_shared select g editor eventName t editorT :
  hasDelegate editor eventName || removed editor = false ->
  getEventTarget select (initDelegates editor) eventName = (t, editorT) ->
  truthy (getEventRoot editor) = true ->
  bindEventDelegate select g editor eventName
  = let g0 := initRegistry g editor in
    let registry := default ∅ (customEventRootDelegates g0) in
    if bool_decide (is_Some (registry !! eventName)) then (g0, editorT)
    else
      let delegate := mkDelegate (nextFn g) (CustomRootDelegate eventName) in
      (mkGlobal (Some (<[eventName := delegate]> registry))
         (bind (TNode <$> t) eventName delegate (listeners g))
         (removeEditorHandlers g0) (S (nextFn g)),
       editorT).
Proof.
  intros Hskip Hget Hroot. unfold bindEventDelegate. fold (initDelegates editor).
  rewrite hasDelegate_init.
  replace (removed (initDelegates editor)) with (removed editor)
    by (by rewrite initDelegates_set).
  rewrite Hskip, Hget.
  destruct (getEventTarget_editor select (initDelegates editor) eventName) as [r Hr].
  rewrite Hget in Hr. simpl in Hr. subst editorT.
  replace (getEventRoot (set_eventRoot r (initDelegates editor)))
    with (getEventRoot editor) by (by rewrite initDelegates_set).
  rewrite Hroot. unfold initRegistry.
  replace (id (set_eventRoot r (initDelegates editor))) with (id editor)
    by (by rewrite initDelegates_set).
  apply orb_false_iff in Hskip as [Hhas _].
  apply hasDelegate_false in Hhas as [_ Hname].
  destruct (customEventRootDelegates g); cbv zeta;
    by rewrite (hasMember_not_inherited _ _ Hname).
Qed.

Lemma resolved_editor_facts r editor :
  let editorT := set_eventRoot r (initDelegates editor) in
  initDelegates editorT = editorT
  /\ (forall n, hasDelegate editorT n = hasDelegate editor n)
  /\ removed editorT = removed editor
  /\ getEventRoot editorT = getEventRoot editor
  /\ id editorT = id editor
  /\ delegates editorT = Some (default ∅ (delegates editor)).
Proof.
  simpl. rewrite (initDelegates_set editor). split; [reflexivity|]. split.
  - intros n. by rewrite <- (hasDelegate_init editor n), initDelegates_set.
  - repeat split.
Qed.

Lemma getEventTarget_set_delegates select d editor eventName :
  (getEventTarget select (set_delegates d editor) eventName).1
  = (getEventTarget select editor eventName).1.
Proof.
  unfold getEventTarget, getEventRoot. simpl.
  destruct (String.eqb eventName "selectionchange"); [done|].
  destruct (negb (inline editor) && documentElementEvent eventName); [done|].
  destruct (event_root editor) as [[|c sel]|]; try done.
  by destruct (eventRoot editor).
Qed.

Lemma bind_new (t : option EventTarget) name (d : Delegate) ls :
  exists new, bind t name d ls = (ls ++ new)%list /\ List.length new <= 1.
Proof.
  destruct t as [t|]; unfold bind.
  - exists [mkListener t name d]. split; [done | simpl; lia].
  - exists []. split; [by rewrite app_nil_r | simpl; lia].
Qed.

Lemma initRegistry_registry g editor :
  default ∅ (customEventRootDelegates (initRegistry g editor))
  = default ∅ (customEventRootDelegates g).
Proof.
  unfold initRegistry.
  destruct (customEventRootDelegates g) eqn:Hregistry; simpl; [|done].
  by rewrite Hregistry.
Qed.

Lemma initRegistry_listeners g editor :
  listeners (initRegistry g editor) = listeners g.
Proof. unfold initRegistry. by destruct (customEventRootDelegates g). Qed.

Lemma initRegistry_again g editor editor' :
  initRegistry (initRegistry g editor) editor' = initRegistry g editor.
Proof.
  unfold initRegistry.
  destruct (customEventRootDelegates g) eqn:Hregistry; simpl; [|done].
  by rewrite Hregistry.
Qed.

(** C2. A second [bindEventDelegate] of the same name on the same editor
    changes nothing.  With a delegate of its own under the name the editor
    and the listeners stay as they are; whenever [editor.delegates[name]]
    counts as true, which it also does for a name that plain objects
    inherit, such as ["constructor"], or the editor is removed, the call
    installs nothing and leaves everything as it is but a missing
    [delegates] object, which it creates empty.  A call installs at most
    one native listener: exactly one, under the name and on the event
    target, when the editor is live, [editor.delegates[name]] counts as
    false, the event target is there and, with an event root, the shared
    registry has nothing under the name; and none in every other case. *)
Theorem bindEventDelegate_idempotent select g editor eventName g1 editor1 :
  bindEventDelegate select g editor eventName = (g1, editor1) ->
  bindEventDelegate select g1 editor1 eventName = (g1, editor1)
  /\ (is_Some (registered editor eventName) -> g1 = g /\ editor1 = editor)
  /\ (hasDelegate editor eventName = true \/ removed editor = true ->
      g1 = g
      /\ editor1 = set_delegates (Some (default ∅ (delegates editor))) editor)
  /\ (exists new, listeners g1 = (listeners g ++ new)%list /\ List.length new <= 1)
  /\ (removed editor = false -> hasDelegate editor eventName = false ->
      is_Some (getEventTarget select editor eventName).1 ->
      (truthy (getEventRoot editor) = true ->
       hasMember (default ∅ (customEventRootDelegates g)) eventName = false) ->
      exists l, listeners g1 = (listeners g ++ [l])%list
                /\ l_name l = eventName
                /\ l_func l = mkDelegate (nextFn g)
                                (if truthy (getEventRoot editor)
                                 then CustomRootDelegate eventName
                                 else EditorDelegate (id editor) eventName)
                /\ Some (l_target l) = TNode <$> (getEventTarget select editor eventName).1)
  /\ (removed editor = true
      \/ hasDelegate editor eventName = true
      \/ (getEventTarget select editor eventName).1 = None
      \/ (truthy (getEventRoot editor) = true
          /\ hasMember (default ∅ (customEventRootDelegates g)) eventName = true) ->
      listeners g1 = listeners g).
Proof.
  intros Hbind.
  destruct (hasDelegate editor eventName || removed editor) eqn:Hskip.
  { rewrite bindEventDelegate_skip in Hbind by done. injection Hbind as <- <-.
    split.
    { rewrite bindEventDelegate_skip, initDelegates_idem; [done|].
      rewrite hasDelegate_init. by rewrite initDelegates_set. }
    split.
    { intros [d Hd]. split; [done|]. unfold registered in Hd.
      unfold initDelegates. by destruct (delegates editor). }
    split; [intros _; split; [done | apply initDelegates_set]|].
    split; [exists []; split; [by rewrite app_nil_r | simpl; lia]|].
    split; [|done].
    intros Hr Hh. by rewrite Hr, Hh in Hskip. }
  apply orb_false_iff in Hskip as Hparts. destruct Hparts as [Hhas Hrem].
  pose proof Hhas as Hown. apply hasDelegate_false in Hown as [Hown Hname].
  assert (Hnone : ~ is_Some (registered editor eventName)).
  { unfold registered. intros [d Hd]. destruct (delegates editor); simpl in *;
      congruence. }
  destruct (getEventTarget select (initDelegates editor) eventName)
    as [t editorT] eqn:Hget.
  assert (Ht : t = (getEventTarget select editor eventName).1).
  { by rewrite <- (getEventTarget_set_delegates select
                    (Some (default ∅ (delegates editor))) editor),
      <- initDelegates_set, Hget. }
  destruct (getEventTarget_editor select (initDelegates editor) eventName) as [r Hr].
  rewrite Hget in Hr. simpl in Hr.
  destruct (resolved_editor_facts r editor)
    as (Hinit & HhasT & HremT & HrootT & HidT & HdsT).
  rewrite <- Hr in Hinit, HhasT, HremT, HrootT, HidT, HdsT.
  pose proof (getEventTarget_idem _ _ _ _ _ Hget) as Hget2.
  destruct (truthy (getEventRoot editor)) eqn:Hroot.
  - (* the shared delegate of the event root *)
    rewrite (bindEventDelegate_shared _ _ _ _ _ _ Hskip Hget Hroot) in Hbind.
    cbv zeta in Hbind.
    assert (Hskip2 : hasDelegate editorT eventName || removed editorT = false)
      by (by rewrite HhasT, HremT).
    assert (Hget3 : getEventTarget select (initDelegates editorT) eventName
                    = (t, editorT)) by (by rewrite Hinit).
    assert (Hroot2 : truthy (getEventRoot editorT) = true) by (by rewrite HrootT).
    rewrite initRegistry_registry in Hbind.
    case_bool_decide as Hreg.
    + injection Hbind as <- <-.
      split.
      { rewrite (bindEventDelegate_shared _ _ _ _ _ _ Hskip2 Hget3 Hroot2).
        cbv zeta. rewrite initRegistry_again, initRegistry_registry.
        by rewrite bool_decide_eq_true_2. }
      split; [done|]. split; [intros [?|?]; congruence|].
      split.
      { exists []. rewrite initRegistry_listeners.
        split; [by rewrite app_nil_r | simpl; lia]. }
      split; [|intros _; apply initRegistry_listeners].
      intros _ _ _ Hfree. specialize (Hfree eq_refl).
      apply hasMember_false in Hfree as [Hfree _]. rewrite Hfree in Hreg.
      by destruct Hreg.
    + injection Hbind as <- <-.
      split.
      { rewrite (bindEventDelegate_shared _ _ _ _ _ _ Hskip2 Hget3 Hroot2).
        cbv zeta.
        match goal with
        | |- context [initRegistry ?g1 editorT] =>
            change (initRegistry g1 editorT) with g1
        end.
        simpl. rewrite lookup_insert_eq, bool_decide_eq_true_2; [done | by eexists]. }
      split; [done|]. split; [intros [?|?]; congruence|].
      cbn [listeners].
      split; [apply bind_new|]. split.
      * intros _ _ Hsome _. rewrite <- Ht in *.
        destruct Hsome as [n ->]. unfold bind. by eexists.
      * intros [?|[?|[Hno|[_ Hheld]]]]; [congruence | congruence | |].
        -- rewrite <- Ht in Hno. by rewrite Hno.
        -- rewrite hasMember_not_inherited in Hheld by done.
           by apply bool_decide_eq_true_1 in Hheld.
  - (* the private delegate *)
    rewrite (bindEventDelegate_private _ _ _ _ _ _ Hskip Hget Hroot) in Hbind.
    cbv zeta in Hbind. injection Hbind as <- <-.
    split.
    { rewrite bindEventDelegate_skip.
      - unfold initDelegates. done.
      - by rewrite hasDelegate_insert. }
    split; [done|]. split; [intros [?|?]; congruence|].
    cbn [listeners].
    split; [apply bind_new|]. split.
    + intros _ _ Hsome _. rewrite <- Ht in *.
      destruct Hsome as [n ->]. unfold bind. by eexists.
    + intros [?|[?|[Hno|[? _]]]]; [congruence | congruence | | congruence].
      rewrite <- Ht in Hno. by rewrite Hno.
Qed.

Lemma bindEventDelegate_idempotent_witness :
  let g1 :=
    mkGlobal None
      [mkListener (TNode (mkNode 1 [0])) "click"
         (mkDelegate 0 (EditorDelegate "I" "click"))] [] 1 in
  let editor1 :=
    set_delegates
      (Some (<["click" := mkDelegate 0 (EditorDelegate "I" "click")]> ∅))
      (Samples.iframeEditor "I" 1) in
  bindEventDelegate Samples.select g1 editor1 "click" = (g1, editor1)
  /\ exists l, listeners g1 = (listeners Samples.fresh ++ [l])%list
               /\ l_name l = "click".
Proof.
  intros g1 editor1.
  destruct (bindEventDelegate_idempotent Samples.select Samples.fresh
              (Samples.iframeEditor "I" 1) "click" g1 editor1 eq_refl)
    as (Hagain & _ & _ & _ & Hone & _).
  split; [exact Hagain|].
  destruct (Hone eq_refl eq_refl ltac:(by eexists) ltac:(discriminate))
    as (l & Hl & Hname & _).
  by exists l.
Defined.

(** On a removed editor without a [delegates] object the call creates
    one; with the delegate of ["click"] already in the shared registry
    (bound through editor A), binding ["click"] twice on the live editor
    B, which has no delegate of that name, installs no listener; and for
    ["constructor"], which the empty [delegates] object of a live editor
    inherits, the call installs no listener either. *)
Lemma bindEventDelegate_effects :
  (removed (Samples.setRemoved Samples.editorA) = true
   /\ bindEventDelegate Samples.select Samples.fresh
        (Samples.setRemoved Samples.editorA) "click"
      = (Samples.fresh, set_delegates (Some ∅) (Samples.setRemoved Samples.editorA))
   /\ set_delegates (Some ∅) (Samples.setRemoved Samples.editorA)
      ≠ Samples.setRemoved Samples.editorA)
  /\ (let gA := (bindEventDelegate Samples.select Samples.fresh
                   Samples.editorA "click").1 in
      let r1 := bindEventDelegate Samples.select gA Samples.editorB "click" in
      let r2 := bindEventDelegate Samples.select r1.1 r1.2 "click" in
      removed Samples.editorB = false
      /\ registered Samples.editorB "click" = None
      /\ hasDelegate Samples.editorB "click" = false
      /\ listeners r1.1 = listeners gA
      /\ listeners r2.1 = listeners gA
      /\ hasDelegate r2.2 "click" = false)
  /\ (removed Samples.iframeI = false
      /\ registered Samples.iframeI "constructor" = None
      /\ is_Some (getEventTarget Samples.select Samples.iframeI "constructor").1
      /\ bindEventDelegate Samples.select Samples.fresh Samples.iframeI "constructor"
         = (Samples.fresh, set_delegates (Some ∅) Samples.iframeI)).
Proof.
  split; [|split].
  - split; [reflexivity|]. split; [reflexivity|].
    intros Heq. apply (f_equal delegates) in Heq. discriminate.
  - repeat split; reflexivity.
  - split; [reflexivity|]. split; [reflexivity|]. split; [by eexists | reflexivity].
Qed.

(* ===================================================================== *)
(** ** Dispatch after unbindAllNativeEvents *)
(* ===================================================================== *)

(** What [getEventTarget] can do to the editor: nothing, or fill the
    empty cache of the event root with what the selector finds. *)
Lemma getEventTarget_editor_cases select editor eventName :
  (getEventTarget select editor eventName).2 = editor
  \/ exists sel,
       getEventRoot editor = Some sel /\ truthy (Some sel) = true
       /\ eventRoot editor = None
       /\ (getEventTarget select editor eventName).2
          = set_eventRoot (head (select sel)) editor.
Proof.
  unfold getEventTarget.
  destruct (String.eqb eventName "selectionchange"); [by left|].
  destruct (negb (inline editor) && documentElementEvent eventName); [by left|].
  destruct (getEventRoot editor) as [sel|] eqn:Hsel; [|by left].
  destruct (truthy (Some sel)) eqn:Htr; [|by left].
  destruct (eventRoot editor) eqn:Hr; [by left|].
  right. by exists sel.
Qed.

Lemma getEventTarget_after select editor m n :
  (getEventTarget select (getEventTarget select editor m).2 n).1
  = (getEventTarget select editor n).1.
Proof.
  destruct (getEventTarget_editor_cases select editor m)
    as [->|(sel & Hsel & Htr & Hr & ->)]; [done|].
  unfold getEventTarget, getEventRoot in *.
  cbn [inline doc body event_root eventRoot set_eventRoot fst snd].
  destruct (String.eqb n "selectionchange"); [done|].
  destruct (negb (inline editor) && documentElementEvent n); [done|].
  rewrite Hsel, Htr, Hr.
  by destruct (head (select sel)).
Qed.

Lemma getEventTarget_no_root select editor eventName :
  truthy (getEventRoot editor) = false ->
  (getEventTarget select editor eventName).2 = editor.
Proof.
  intros Hroot. unfold getEventTarget.
  destruct (String.eqb eventName "selectionchange"); [done|].
  destruct (negb (inline editor) && documentElementEvent eventName); [done|].
  destruct (getEventRoot editor) as [sel|]; [|done]. by rewrite Hroot.
Qed.

Lemma foldl_unbindDelegate_error select entries :
  foldl (unbindDelegate select) TypeError entries = TypeError.
Proof. induction entries as [|entry entries IH]; [done | exact IH]. Qed.

(** The loop over the delegates takes off, for each of them, the
    listeners of its name and callback on the event target of the name;
    the cache of the event root, which the loop may fill, changes no
    target. *)
Lemma foldl_unbindDelegate select entries :
  forall self ls ls' self',
    foldl (unbindDelegate select) (Ok (ls, self)) entries = Ok (ls', self') ->
    forall l,
      l ∈ ls'
      <-> l ∈ ls
          /\ forall entry t,
               entry ∈ entries ->
               TNode <$> (getEventTarget select self entry.1).1 = Some t ->
               selected t (Some entry.1) (Some entry.2) l = false.
Proof.
  induction entries as [|entry entries IH]; intros self ls ls' self'.
  - simpl. intros [= <- <-]. intros l. split.
    + intros Hl. split; [done|]. intros entry t Hin. by apply elem_of_nil in Hin.
    + by intros [Hl _].
  - simpl. destruct (dom self); [|by rewrite foldl_unbindDelegate_error].
    pose proof (getEventTarget_after select self entry.1) as Hsame.
    destruct (getEventTarget select self entry.1) as [t0 self0] eqn:Hget.
    simpl in Hsame. intros Hfold l.
    rewrite (IH _ _ _ _ Hfold), unbind_elem. split.
    + intros [[Hl Hsel] Hrest]. split; [done|].
      intros entry' t Hin Ht. apply elem_of_cons in Hin as [->|Hin].
      * rewrite Hget in Ht. by apply Hsel.
      * apply Hrest; [done|]. by rewrite Hsame.
    + intros [Hl Hall]. split; [split; [done|]|].
      * intros t' Ht'. apply (Hall entry t'); [by left | by rewrite Hget].
      * intros entry' t Hin Ht. apply (Hall entry' t); [by right|].
        by rewrite <- Hsame.
Qed.

(** The listeners after [unbindAllNativeEvents] are among those left by
    its loop over the delegates, and the [delegates] object is gone. *)
Lemma unbindAllNativeEvents_shape select g self g' self' :
  unbindAllNativeEvents select g self = Ok (g', self') ->
  delegates self' = None
  /\ exists ls1 self1,
       (forall l, l ∈ listeners g' -> l ∈ ls1)
       /\ match delegates self with
          | Some ds =>
              foldl (unbindDelegate select) (Ok (listeners g, self)) (map_to_list ds)
              = Ok (ls1, self1)
          | None => ls1 = listeners g
          end.
Proof.
  unfold unbindAllNativeEvents.
  destruct (delegates self) as [ds|] eqn:Hds.
  - destruct (foldl (unbindDelegate select) (Ok (listeners g, self)) (map_to_list ds))
      as [[ls1 self1]|]; [|done].
    destruct (negb (inline (set_delegates None self1))
              && bool_decide (is_Some (body self)) && dom self);
      destruct (dom self); intros [= <- <-]; (split; [done|]);
      exists ls1, self1; (split; [|done]); simpl; intros l Hl;
      by repeat apply unbind_subset in Hl.
  - destruct (negb (inline self) && bool_decide (is_Some (body self)) && dom self);
      destruct (dom self); intros [= <- <-]; (split; [done|]);
      exists (listeners g), self; (split; [|done]); simpl; intros l Hl;
      by repeat apply unbind_subset in Hl.
Qed.

(** The loop of [unbindAllNativeEvents] gets through with [editor.dom]
    and stops at the first delegate without it. *)
Lemma foldl_unbindDelegate_dom select entries :
  forall ls self,
    dom self = true ->
    exists ls' r,
      foldl (unbindDelegate select) (Ok (ls, self)) entries
      = Ok (ls', set_eventRoot r self)
      /\ (forall l, l ∈ ls' -> l ∈ ls)
      /\ (forall l, l ∈ ls -> (forall entry, entry ∈ entries -> entry.2 ≠ l_func l) ->
                    l ∈ ls').
Proof.
  induction entries as [|entry entries IH]; intros ls self Hdom.
  { exists ls, (eventRoot self). by rewrite set_eventRoot_same. }
  simpl. rewrite Hdom.
  destruct (getEventTarget_editor select self entry.1) as [r Hr].
  destruct (getEventTarget select self entry.1) as [t self'] eqn:Hget.
  simpl in Hr. subst self'.
  destruct (IH (unbind (TNode <$> t) (Some entry.1) (Some entry.2) ls)
              (set_eventRoot r self) Hdom) as (ls' & r' & -> & Hsub & Hkeep).
  exists ls', r'. split; [done|]. split.
  - intros l Hl. by eapply unbind_subset, Hsub.
  - intros l Hl Hne. apply Hkeep.
    + apply unbind_elem. split; [done|]. intros t' _. unfold selected.
      rewrite (bool_decide_eq_false_2 (l_func l = entry.2)).
      * by rewrite andb_false_r.
      * intros Heq. by apply (Hne entry ltac:(by left)).
    + intros entry' Hin. apply Hne. by right.
Qed.

Lemma foldl_unbindDelegate_no_dom select entries ls self :
  dom self = false -> entries ≠ [] ->
  foldl (unbindDelegate select) (Ok (ls, self)) entries = TypeError.
Proof.
  intros Hdom Hne. destruct entries as [|entry entries]; [done|].
  simpl. rewrite Hdom. apply foldl_unbindDelegate_error.
Qed.

(** What [unbindAllNativeEvents] returns: [ls1] are the listeners its
    loop over the delegates leaves, [r] the cache of the event root. *)
Lemma unbindAllNativeEvents_result select g self g1 self1 :
  unbindAllNativeEvents select g self = Ok (g1, self1) ->
  exists ls1 r,
    (forall l, l ∈ ls1 -> l ∈ listeners g)
    /\ (forall l, l ∈ listeners g ->
          (forall n, registered self n ≠ Some (l_func l)) -> l ∈ ls1)
    /\ self1
       = (if negb (inline self) && bool_decide (is_Some (body self)) && dom self
          then set_body_onload false (set_delegates None (set_eventRoot r self))
          else set_delegates None (set_eventRoot r self))
    /\ g1
       = mkGlobal (customEventRootDelegates g)
           (let ls :=
              if negb (inline self) && bool_decide (is_Some (body self)) && dom self
              then unbind (Some (TNode (doc self))) None None
                     (unbind (Some (TWindow (win self))) None None ls1)
              else ls1 in
            if dom self
            then unbind (TNode <$> container self) None None
                   (unbind (TNode <$> body self) None None ls)
            else ls)
           (removeEditorHandlers g) (nextFn g).
Proof.
  unfold unbindAllNativeEvents.
  assert (Hloop : exists ls1 r,
    match delegates self with
    | Some ds =>
        match foldl (unbindDelegate select) (Ok (listeners g, self)) (map_to_list ds) with
        | Ok (ls, self0) => Ok (ls, set_delegates None self0)
        | TypeError => TypeError
        end
    | None => Ok (listeners g, self)
    end = Ok (ls1, set_delegates None (set_eventRoot r self))
    /\ (forall l, l ∈ ls1 -> l ∈ listeners g)
    /\ (forall l, l ∈ listeners g ->
          (forall n, registered self n ≠ Some (l_func l)) -> l ∈ ls1)
    \/ match delegates self with
       | Some ds =>
           match foldl (unbindDelegate select) (Ok (listeners g, self)) (map_to_list ds) with
           | Ok (ls, self0) => Ok (ls, set_delegates None self0)
           | TypeError => TypeError
           end
       | None => Ok (listeners g, self)
       end = TypeError).
  { unfold registered. destruct (delegates self) as [ds|] eqn:Hds.
    - destruct (dom self) eqn:Hdom.
      + destruct (foldl_unbindDelegate_dom select (map_to_list ds) (listeners g)
                    self Hdom) as (ls' & r & -> & Hsub & Hkeep).
        exists ls', r. left. split; [done|]. split; [done|].
        intros l Hl Hne. apply Hkeep; [done|]. intros [n d] Hin Heq.
        apply elem_of_map_to_list in Hin. simpl in *. subst d.
        by apply (Hne n).
      + destruct (map_to_list ds) as [|entry entries] eqn:Hentries.
        * exists (listeners g), (eventRoot self). left.
          rewrite set_eventRoot_same. simpl. done.
        * exists [], None. right.
          by rewrite foldl_unbindDelegate_no_dom.
    - exists (listeners g), (eventRoot self). left.
      rewrite set_eventRoot_same. split; [|done].
      destruct self. simpl in Hds. by subst. }
  destruct Hloop as (ls1 & r & [(Heq & Hsub & Hkeep)|Heq]); rewrite Heq; [|done].
  intros Hrun. exists ls1, r. split; [done|]. split; [done|].
  revert Hrun. simpl.
  destruct (negb (inline self) && bool_decide (is_Some (body self)) && dom self);
    destruct (dom self); by intros [= <- <-].
Qed.

(** A listener that is none of the editor's delegates and on none of the
    editor's window, document, body and container stays. *)
Lemma unbindAllNativeEvents_keeps select g self g' self' l :
  unbindAllNativeEvents select g self = Ok (g', self') ->
  l ∈ listeners g ->
  (forall m, registered self m ≠ Some (l_func l)) ->
  l_target l ≠ TWindow (win self) -> l_target l ≠ TNode (doc self) ->
  Some (l_target l) ≠ TNode <$> body self ->
  Some (l_target l) ≠ TNode <$> container self ->
  l ∈ listeners g'.
Proof.
  intros Hrun Hl Hfunc Hw Hd Hb Hc.
  destruct (unbindAllNativeEvents_result _ _ _ _ _ Hrun)
    as (ls1 & r & Hsub & Hkeep & -> & ->).
  specialize (Hkeep l Hl Hfunc). simpl.
  destruct (negb (inline self) && bool_decide (is_Some (body self)) && dom self),
    (dom self); repeat apply unbind_keeps; try done; congruence.
Qed.

Lemma fireEvent_actionEditor editor eventName e a :
  a ∈ fireEvent editor eventName e -> actionEditor a = id editor.
Proof.
  unfold fireEvent. destruct (isListening editor); [|destruct (isReadOnly editor)];
    rewrite ?list_elem_of_singleton, ?elem_of_nil; by try intros ->.
Qed.

(** C5. For an editor whose private listeners are the delegates it has
    registered: after [unbindAllNativeEvents] none of its private
    delegates is bound any more and its [delegates] object is gone.  A
    listener that is left does something to the editor only if it is a
    shared delegate of a custom event root, bound before the call, and the
    editor is among the live editors with the target of the event in its
    body; so nothing reaches the editor after the call when no shared
    delegate is bound or the editor is out of the list of live editors.
    A shared delegate is taken off by the call only where it is one of
    the editor's registered delegates or sits on the editor's window,
    document, body or container: everywhere else it stays bound and goes
    on running the loop over the live editors. *)
Theorem unbindAllNativeEvents_private select g self g' self' :
  privateRegistered select g self ->
  unbindAllNativeEvents select g self = Ok (g', self') ->
  (forall l n, l ∈ listeners g' -> kind (l_func l) ≠ EditorDelegate (id self) n)
  /\ delegates self' = None
  /\ (forall objects editors l e a,
        (forall k ed, objects !! k = Some ed -> id ed = k) ->
        l ∈ listeners g' ->
        a ∈ runDelegate objects editors (l_func l) e ->
        actionEditor a = id self ->
        exists n ed,
          kind (l_func l) = CustomRootDelegate n
          /\ l ∈ listeners g
          /\ ed ∈ editors /\ id ed = id self /\ holdsTarget e ed = true)
  /\ (forall l n,
        l ∈ listeners g -> kind (l_func l) = CustomRootDelegate n ->
        (forall m, registered self m ≠ Some (l_func l)) ->
        l_target l ≠ TWindow (win self) -> l_target l ≠ TNode (doc self) ->
        Some (l_target l) ≠ TNode <$> body self ->
        Some (l_target l) ≠ TNode <$> container self ->
        l ∈ listeners g'
        /\ forall objects editors e,
             runDelegate objects editors (l_func l) e
             = customRootDelegate editors n e).
Proof.
  intros Hreg Hrun.
  destruct (unbindAllNativeEvents_shape _ _ _ _ _ Hrun)
    as (Hgone & ls1 & self1 & Hsub & Hloop).
  assert (Hin : forall l, l ∈ listeners g' -> l ∈ listeners g).
  { intros l Hl. apply Hsub in Hl. destruct (delegates self) as [ds|].
    - by apply (foldl_unbindDelegate _ _ _ _ _ _ Hloop) in Hl as [Hl _].
    - by subst ls1. }
  assert (Hnone : forall l n, l ∈ listeners g' ->
                    kind (l_func l) ≠ EditorDelegate (id self) n).
  { intros l n Hl Hkind. pose proof (Hin l Hl) as Hl0.
    destruct (Hreg l n Hl0 Hkind) as (ds & Hds & Hlook & Htarget).
    apply Hsub in Hl. rewrite Hds in Hloop.
    apply (foldl_unbindDelegate _ _ _ _ _ _ Hloop) in Hl as [_ Hsel].
    specialize (Hsel (l_name l, l_func l) (l_target l)
                  ltac:(by apply elem_of_map_to_list) Htarget).
    unfold selected in Hsel. simpl in Hsel.
    by rewrite !bool_decide_eq_true_2 in Hsel. }
  split; [exact Hnone|]. split; [exact Hgone|]. split.
  - intros objects editors l e a Hobj Hl Ha Hself. unfold runDelegate in Ha.
    destruct (kind (l_func l)) as [n|ed n] eqn:Hkind.
    + apply customRootDelegate_elem in Ha as (ed & Hed & Hholds & Ha).
      apply fireEvent_actionEditor in Ha. exists n, ed.
      repeat split; [by apply Hin | done | congruence | done].
    + destruct (objects !! ed) as [editor|] eqn:Hed; [|by apply elem_of_nil in Ha].
      apply fireEvent_actionEditor in Ha. rewrite Ha, (Hobj _ _ Hed) in Hself.
      subst ed. by destruct (Hnone l n Hl).
  - intros l n Hl Hkind Hfunc Hw Hd Hb Hc. split.
    + by eapply unbindAllNativeEvents_keeps.
    + intros objects editors e. unfold runDelegate. by rewrite Hkind.
Qed.

(** Binding keeps the private listeners of an editor in step with its
    [delegates]; with no listener at all they are. *)
Lemma privateRegistered_fresh select g self :
  listeners g = [] -> privateRegistered select g self.
Proof. intros Hnil l n Hl. rewrite Hnil in Hl. by apply elem_of_nil in Hl. Qed.

Lemma privateRegistered_bind select g editor eventName g1 editor1 :
  privateRegistered select g editor ->
  bindEventDelegate select g editor eventName = (g1, editor1) ->
  privateRegistered select g1 editor1.
Proof.
  intros Hreg Hbind.
  destruct (hasDelegate editor eventName || removed editor) eqn:Hskip.
  { rewrite bindEventDelegate_skip in Hbind by done. injection Hbind as <- <-.
    intros l n Hl Hkind. rewrite initDelegates_set in Hkind.
    destruct (Hreg l n Hl Hkind) as (ds & Hds & Hlook & Ht).
    exists ds. rewrite initDelegates_set, getEventTarget_set_delegates.
    simpl. by rewrite Hds. }
  apply orb_false_iff in Hskip as Hparts. destruct Hparts as [Hhas _].
  apply hasDelegate_false in Hhas as [Hown _].
  pose proof (getEventTarget_after select (initDelegates editor) eventName) as Hsame.
  destruct (getEventTarget_editor select (initDelegates editor) eventName) as [r Hr].
  destruct (getEventTarget select (initDelegates editor) eventName)
    as [t editorT] eqn:Hget.
  simpl in Hsame, Hr.
  assert (Htarget : forall n,
            (getEventTarget select editorT n).1 = (getEventTarget select editor n).1).
  { intros n. by rewrite Hsame, initDelegates_set, getEventTarget_set_delegates. }
  assert (Hold : forall l n,
            l ∈ listeners g -> kind (l_func l) = EditorDelegate (id editor) n ->
            exists ds,
              delegates editor = Some ds /\ ds !! l_name l = Some (l_func l)
              /\ TNode <$> (getEventTarget select editorT (l_name l)).1
                 = Some (l_target l)).
  { intros l n Hl Hkind. destruct (Hreg l n Hl Hkind) as (ds & Hds & Hlook & Ht).
    exists ds. by rewrite Htarget. }
  assert (Hid : id editorT = id editor) by (by rewrite Hr, initDelegates_set).
  assert (Hds : delegates editorT = Some (default ∅ (delegates editor)))
    by (by rewrite Hr, initDelegates_set).
  destruct (truthy (getEventRoot editor)) eqn:Hroot.
  - rewrite (bindEventDelegate_shared _ _ _ _ _ _ Hskip Hget Hroot) in Hbind.
    cbv zeta in Hbind.
    assert (Hcase : forall l n,
              l ∈ listeners g1 -> kind (l_func l) = EditorDelegate (id editorT) n ->
              l ∈ listeners g /\ editor1 = editorT).
    { case_bool_decide; injection Hbind as <- <-; intros l n Hl Hkind.
      - by rewrite initRegistry_listeners in Hl.
      - cbn [listeners] in Hl. unfold bind in Hl. destruct t as [t|]; simpl in Hl;
          [|done].
        apply elem_of_app in Hl as [Hl|Hl]; [done|].
        apply list_elem_of_singleton in Hl as ->. discriminate. }
    assert (Heditor : editor1 = editorT) by (by case_bool_decide; injection Hbind).
    subst editor1. intros l n Hl Hkind.
    destruct (Hcase l n Hl Hkind) as [Hl0 _]. rewrite Hid in Hkind.
    destruct (Hold l n Hl0 Hkind) as (ds & Hds0 & Hlook & Ht).
    exists ds. rewrite Hds, Hds0. done.
  - rewrite (bindEventDelegate_private _ _ _ _ _ _ Hskip Hget Hroot) in Hbind.
    cbv zeta in Hbind. injection Hbind as <- <-.
    intros l n Hl Hkind. cbn [listeners] in Hl.
    change (id (set_delegates _ editorT)) with (id editorT) in Hkind.
    rewrite Hid in Hkind.
    eexists. split; [reflexivity|]. rewrite getEventTarget_set_delegates.
    assert (Hkept : l ∈ listeners g ->
              <[eventName := mkDelegate (nextFn g) (EditorDelegate (id editor) eventName)]>
                (default ∅ (delegates editor)) !! l_name l = Some (l_func l)
              /\ TNode <$> (getEventTarget select editorT (l_name l)).1
                 = Some (l_target l)).
    { intros Hl0. destruct (Hold l n Hl0 Hkind) as (ds & Hds0 & Hlook & Ht).
      split; [|done]. rewrite Hds0 in *. simpl in *.
      rewrite lookup_insert_ne; [done|]. intros Heq. congruence. }
    unfold bind in Hl. destruct t as [t|]; simpl in Hl; [|by apply Hkept].
    apply elem_of_app in Hl as [Hl|Hl]; [by apply Hkept|].
    apply list_elem_of_singleton in Hl as ->. simpl.
    rewrite lookup_insert_eq. split; [done|].
    by rewrite (getEventTarget_idem _ _ _ _ _ Hget).
Qed.

Lemma unbindAllNativeEvents_private_witness :
  exists g' self',
    unbindAllNativeEvents Samples.select Samples.boundI.1 Samples.boundI.2
    = Ok (g', self')
    /\ listeners Samples.boundI.1
       = [mkListener (TNode (mkNode 1 [0])) "click"
            (mkDelegate 0 (EditorDelegate "I" "click"))]
    /\ listeners g' = []
    /\ delegates self' = None
    /\ forall l n, l ∈ listeners g' -> kind (l_func l) ≠ EditorDelegate "I" n.
Proof.
  eexists _, _. split; [reflexivity|]. split; [reflexivity|].
  split; [reflexivity|].
  assert (Hreg : privateRegistered Samples.select Samples.boundI.1 Samples.boundI.2).
  { intros l n Hl _. apply list_elem_of_singleton in Hl as ->.
    eexists. repeat split; reflexivity. }
  destruct (unbindAllNativeEvents_private Samples.select Samples.boundI.1
              Samples.boundI.2 _ _ Hreg eq_refl)
    as (Hnone & Hgone & _).
  split; [exact Hgone | exact Hnone].
Defined.

(** Editor A sits on the event root [#root]; ["click"] was bound on it
    and went to the shared registry.  [unbindAllNativeEvents] on A leaves
    the shared listener on the root, which the click inside the body of
    A bubbles to, and the listener still fires the click on A. *)
Lemma unbindAllNativeEvents_shared_delegate_stays :
  let shared :=
    mkListener (TNode Samples.root) "click"
      (mkDelegate 0 (CustomRootDelegate "click")) in
  listeners Samples.boundA.1 = [shared]
  /\ unbindAllNativeEvents Samples.select Samples.boundA.1 Samples.boundA.2
     = Ok (Samples.boundA.1, set_delegates None Samples.boundA.2)
  /\ inclusiveAncestor Samples.root (target Samples.clickInA)
  /\ runDelegate {["A" := set_delegates None Samples.boundA.2]}
       [set_delegates None Samples.boundA.2] (l_func shared) Samples.clickInA
     = [Fire "A" "click" Samples.clickInA].
Proof.
  intros shared. split; [reflexivity|]. split; [reflexivity|]. split; [|reflexivity].
  eapply ancestor_parent; [reflexivity|].
  eapply ancestor_parent; [reflexivity|]. constructor.
Qed.

(** The shared registry goes when an editor is removed and none is
    active any more, and the shared listener with it. *)
Lemma onRemoveEditor_clears select g editor g' editor' :
  onRemoveEditor select None g editor = Ok (g', editor') ->
  customEventRootDelegates g' = None.
Proof.
  unfold onRemoveEditor. destruct (customEventRootDelegates g) as [registry|] eqn:Hcr.
  - destruct (foldl _ _ _) as [[ls ed]|]; [|done]. by intros [= <- <-].
  - intros [= <- <-]. exact Hcr.
Qed.

Example onRemoveEditor_sample :
  onRemoveEditor Samples.select None Samples.boundA.1 Samples.boundA.2
  = Ok (mkGlobal None [] ["A"] 1, Samples.boundA.2).
Proof. reflexivity. Qed.

(** Whether the [delegates] object is missing or empty shows when a
    listener is toggled off: without the object the read of
    [self.delegates[name]] throws. *)
Example toggleNativeEvent_off_sample :
  toggleNativeEvent Samples.select Samples.fresh Samples.iframeI "click" false
  = TypeError
  /\ toggleNativeEvent Samples.select Samples.fresh
       (set_delegates (Some ∅) Samples.iframeI) "click" false
     = Ok (Samples.fresh, set_delegates (Some ∅) Samples.iframeI).
Proof. split; reflexivity. Qed.

(* ===================================================================== *)
(** ** extractBlob *)
(* ===================================================================== *)

(** C7. With a file list on the target and no drag payload,
    [extractBlob] gives the first file of the list, and nothing when the
    list is empty.  The drag payload is read too: without a list on the
    target, [extractBlob] gives the first file of the list of the drag
    payload, or nothing when that list is empty.  And whenever it gives
    an answer, that is the head of the target's list or, without one, of
    the list of the drag payload. *)
Theorem extractBlob_first_file se :
  (forall files,
     target_files (raw se) = Some files -> dataTransfer (raw se) = None ->
     extractBlob se = Ok (head files)
     /\ (files = [] -> extractBlob se = Ok None)
     /\ (forall b rest, files = b :: rest -> extractBlob se = Ok (Some b)))
  /\ (forall dt files,
        target_files (raw se) = None -> dataTransfer (raw se) = Some dt ->
        dt_files dt = Some files ->
        extractBlob se = Ok (head files)
        /\ (files = [] -> extractBlob se = Ok None)
        /\ (forall b rest, files = b :: rest -> extractBlob se = Ok (Some b)))
  /\ (forall r,
        extractBlob se = Ok r ->
        exists files,
          r = head files
          /\ (target_files (raw se) = Some files
              \/ (target_files (raw se) = None
                  /\ exists dt, dataTransfer (raw se) = Some dt
                                /\ dt_files dt = Some files))).
Proof.
  unfold extractBlob, pickFiles. split; [|split].
  - intros files Hfiles _. rewrite Hfiles. split; [done|].
    split; [by intros -> | by intros b rest ->].
  - intros dt files Hnone Hdt Hfiles. rewrite Hnone, Hdt, Hfiles.
    split; [done|]. split; [by intros -> | by intros b rest ->].
  - intros r. destruct (target_files (raw se)) as [files|].
    + intros [= <-]. exists files. split; [done | by left].
    + destruct (dataTransfer (raw se)) as [[[files|]]|]; try done.
      intros [= <-]. exists files. split; [done|]. right. split; [done|].
      by eexists.
Qed.

Lemma extractBlob_first_file_witness :
  extractBlob (mkSimulatedEvent (mkRawEvent (Some [blob 7; blob 8]) None) false)
  = Ok (Some (blob 7))
  /\ extractBlob (mkSimulatedEvent (mkRawEvent (Some []) None) false) = Ok None
  /\ extractBlob
       (mkSimulatedEvent
          (mkRawEvent None (Some (mkDataTransfer (Some [blob 5; blob 6])))) false)
     = Ok (Some (blob 5)).
Proof.
  split; [|split].
  - apply (proj1 (extractBlob_first_file
             (mkSimulatedEvent (mkRawEvent (Some [blob 7; blob 8]) None) false))
             [blob 7; blob 8] eq_refl eq_refl).
  - apply (proj1 (extractBlob_first_file
             (mkSimulatedEvent (mkRawEvent (Some []) None) false))
             [] eq_refl eq_refl).
    reflexivity.
  - apply (proj1 (proj2 (extractBlob_first_file
             (mkSimulatedEvent
                (mkRawEvent None (Some (mkDataTransfer (Some [blob 5; blob 6]))))
                false)))
             (mkDataTransfer (Some [blob 5; blob 6])) [blob 5; blob 6]
             eq_refl eq_refl eq_refl).
Defined.

(** C10. A file list on the target, empty or not, decides the answer
    whatever the drag payload is; and without a list on the target and
    without a drag payload the call throws, it does not answer "none". *)
Theorem extractBlob_partial :
  (forall files dt stopped,
     extractBlob (mkSimulatedEvent (mkRawEvent (Some files) dt) stopped)
     = Ok (head files))
  /\ (forall dropped stopped,
        extractBlob
          (mkSimulatedEvent
             (mkRawEvent (Some []) (Some (mkDataTransfer (Some [dropped]))))
             stopped)
        = Ok None)
  /\ (forall stopped,
        extractBlob (mkSimulatedEvent (mkRawEvent None None) stopped) = TypeError
        /\ extractBlob (mkSimulatedEvent (mkRawEvent None None) stopped) ≠ Ok None).
Proof. repeat split; done. Qed.

(* ===================================================================== *)
(** ** addImage *)
(* ===================================================================== *)

(** Two identifiers of the same prefix from different counter values are
    different. *)
Lemma Id_generate_fresh prefix w1 w2 :
  unique w1 ≠ unique w2 ->
  (Id_generate prefix w1).1 ≠ (Id_generate prefix w2).1.
Proof.
  intros Hne Heq. unfold Id_generate in Heq. simpl in Heq.
  apply String.app_inj, String.app_inj in Heq.
  apply (inj pretty) in Heq. congruence.
Qed.

Lemma Id_generate_unique prefix w :
  unique (Id_generate prefix w).2 = S (unique w).
Proof. reflexivity. Qed.

(** A transaction logs its begin, then what the callback logs, then its
    end. *)
Lemma transact_calls {A} (callback : M A) w :
  calls (transact callback w).2
  = (calls (callback (lock w).2).2 ++ [TransactEnd])%list.
Proof.
  unfold transact, mbind, M_bind, mret, M_ret. simpl.
  by destruct (callback _) as [a w'].
Qed.

(** C6. Once the encoding is there, [addImage] makes, inside one
    [transact] and in this order: one identifier with the prefix
    ["mceu"], new by the counter; one cache entry created from that
    identifier, the blob and the encoding; one [add] of that entry; and
    one [insertContent] of an [img] whose [src] is the entry's blob URI.
    One undo level comes of it when no transaction was running. *)
Theorem addImage_completed blobToBase64 b base64 w :
  blobToBase64 b = Resolved base64 ->
  let w' := (addImage blobToBase64 b w).2 in
  let id := "mceu" +:+ "_" +:+ pretty (S (unique w)) in
  let info := mkBlobInfo id b base64 in
  let img := mkHtml "img" [("src", blobUri info)] in
  let new := [TransactBegin; IdGenerate "mceu" id; CacheCreate id b base64;
              CacheAdd info; CreateHTML img; InsertContent img; TransactEnd] in
  calls w' = (calls w ++ new)%list
  /\ occurrences isTransactBegin new = 1
  /\ occurrences isTransactEnd new = 1
  /\ occurrences isIdGenerate new = 1
  /\ occurrences isCacheCreate new = 1
  /\ occurrences isCacheAdd new = 1
  /\ occurrences isInsertContent new = 1
  /\ blobCache w' = (blobCache w ++ [info])%list
  /\ content w' = (content w ++ [img])%list
  /\ unique w' = S (unique w)
  /\ (forall w0, unique w0 < unique w -> (Id_generate "mceu" w0).1 ≠ id)
  /\ locks w' = locks w
  /\ (locks w = 0 -> undoLevels w' = S (undoLevels w)).
Proof.
  intros Hres. unfold addImage. rewrite Hres. simpl.
  rewrite <- !app_assoc. simpl.
  repeat (split; [reflexivity|]).
  split.
  { intros w0 Hlt Heq. unfold Id_generate in Heq. simpl in Heq.
    apply String.app_inj, String.app_inj in Heq.
    apply (inj pretty) in Heq. lia. }
  split; [reflexivity|]. by intros ->.
Qed.

Lemma addImage_completed_witness :
  let w := mkWorld 4 [] [] 0 0 [] in
  let info := mkBlobInfo "mceu_5" (blob 7) "aGk=" in
  blobCache (addImage (fun _ => Resolved "aGk=") (blob 7) w).2 = [info]
  /\ undoLevels (addImage (fun _ => Resolved "aGk=") (blob 7) w).2 = 1.
Proof.
  intros w info.
  destruct (addImage_completed (fun _ => Resolved "aGk=") (blob 7) "aGk=" w eq_refl)
    as (_ & _ & _ & _ & _ & _ & _ & Hcache & _ & _ & _ & _ & Hundo).
  split; [exact Hcache | exact (Hundo eq_refl)].
Defined.

(** Without the encoding nothing happens. *)
Lemma addImage_not_resolved blobToBase64 b w :
  blobToBase64 b = Rejected \/ blobToBase64 b = Pending ->
  (addImage blobToBase64 b w).2 = w.
Proof. unfold addImage. by intros [->| ->]. Qed.

(* ===================================================================== *)
(** ** More on getEventTarget *)
(* ===================================================================== *)

(** X1. The names that go to the document element of an iframe editor
    are those that begin with ["mouse"] and those that have ["touch"],
    ["click"], ["contextmenu"], ["drop"], ["dragover"] or ["dragend"]
    anywhere in them: only the first alternative of the pattern is tied
    to the beginning of the name. *)
Theorem documentElementEvent_spec (eventName : string) :
  documentElementEvent eventName = true
  <-> (exists post, eventName = "mouse" +:+ post)
      \/ exists w,
           w ∈ ["touch"; "click"; "contextmenu"; "drop"; "dragover"; "dragend"]
           /\ hasSubstring w eventName.
Proof.
  unfold documentElementEvent. rewrite !orb_true_iff, prefix_app, !contains_spec.
  split.
  - intros [[[[[[H|H]|H]|H]|H]|H]|H]; [by left|right; eexists; split; [|exact H]..];
      set_solver.
  - intros [H|(w & Hw & H)]; [tauto|].
    repeat (apply elem_of_cons in Hw as [->|Hw]; [tauto|]).
    by apply elem_of_nil in Hw.
Qed.

#[local] Arguments truthy : simpl never.

Lemma getEventTarget_after_editor select editor m n :
  (getEventTarget select editor n).2 = editor ->
  (getEventTarget select (getEventTarget select editor m).2 n).2
  = (getEventTarget select editor m).2.
Proof.
  intros Hn.
  destruct (getEventTarget_editor_cases select editor m)
    as [->|(sel & Hsel & Htr & Hr & ->)]; [done|].
  revert Hn. unfold getEventTarget, getEventRoot in *. simpl.
  destruct (String.eqb n "selectionchange"); [done|].
  destruct (negb (inline editor) && documentElementEvent n); [done|].
  rewrite Hsel, Htr, Hr. simpl. intros _.
  by destruct (head (select sel)).
Qed.

(** X2. The node [getEventTarget] answers for a name does not depend on
    the names it was asked for before (filling the cache of the event
    root changes no answer), and asking for two names leaves the same
    editor in either order. *)
Theorem getEventTarget_order select editor m n :
  (getEventTarget select (getEventTarget select editor m).2 n).1
  = (getEventTarget select editor n).1
  /\ (getEventTarget select (getEventTarget select editor m).2 n).2
     = (getEventTarget select (getEventTarget select editor n).2 m).2.
Proof.
  split; [apply getEventTarget_after|].
  destruct (getEventTarget_editor_cases select editor m)
    as [Hm|(sel & Hsel & Htr & Hr & Hm)];
    destruct (getEventTarget_editor_cases select editor n)
      as [Hn|(sel' & Hsel' & Htr' & Hr' & Hn)].
  - by rewrite Hm, Hn, Hm.
  - rewrite Hm. rewrite (getEventTarget_after_editor _ _ _ _ Hm). done.
  - rewrite Hn. by rewrite (getEventTarget_after_editor _ _ _ _ Hn).
  - rewrite Hm, Hn. rewrite Hsel in Hsel'. injection Hsel' as <-.
    unfold getEventTarget, getEventRoot in *. simpl.
    destruct (String.eqb n "selectionchange"), (String.eqb m "selectionchange");
      try done;
      destruct (negb (inline editor) && documentElementEvent n),
        (negb (inline editor) && documentElementEvent m); try done;
      rewrite ?Hsel, ?Htr, ?Hr; simpl; by destruct (head (select sel)).
Qed.

(* ===================================================================== *)
(** ** Binding, queueing and flushing *)
(* ===================================================================== *)

(** [bindEventDelegate] changes of the editor only the [delegates] object
    and the cache of the event root. *)
Lemma bindEventDelegate_editor select g editor eventName :
  exists d r,
    (bindEventDelegate select g editor eventName).2
    = set_delegates d (set_eventRoot r editor).
Proof.
  destruct (hasDelegate editor eventName || removed editor) eqn:Hskip.
  { rewrite bindEventDelegate_skip by done. rewrite initDelegates_set. simpl.
    eexists _, (eventRoot editor). by rewrite set_eventRoot_same. }
  destruct (getEventTarget select (initDelegates editor) eventName)
    as [t editorT] eqn:Hget.
  destruct (getEventTarget_editor select (initDelegates editor) eventName) as [r Hr].
  rewrite Hget in Hr. simpl in Hr. subst editorT.
  rewrite initDelegates_set in Hget.
  destruct (truthy (getEventRoot editor)) eqn:Hroot.
  - rewrite (bindEventDelegate_shared _ _ _ _ _ _ Hskip
               ltac:(by rewrite initDelegates_set) Hroot).
    cbv zeta. case_bool_decide; simpl; by eexists _, r.
  - rewrite (bindEventDelegate_private _ _ _ _ _ _ Hskip
               ltac:(by rewrite initDelegates_set) Hroot).
    cbv zeta. simpl. by eexists _, r.
Qed.

Lemma bound_fix select g editor eventName :
  bound select g editor eventName ->
  bindEventDelegate select g editor eventName = (g, editor).
Proof.
  intros [[ds Hds] Hcases].
  assert (Hinit : initDelegates editor = editor)
    by (unfold initDelegates; by rewrite Hds).
  destruct (hasDelegate editor eventName || removed editor) eqn:Hskip.
  { by rewrite bindEventDelegate_skip, Hinit. }
  apply orb_false_iff in Hskip as Hparts. destruct Hparts as [Hhas Hrem].
  destruct Hcases as [Hh|[Hr|(Hroot & Hsame & registry & Hreg & Hin)]];
    [congruence..|].
  rewrite (bindEventDelegate_shared select g editor eventName
             (getEventTarget select editor eventName).1 editor Hskip); [|  |done].
  - cbv zeta. unfold initRegistry. rewrite Hreg. simpl. rewrite Hreg. simpl.
    by rewrite bool_decide_eq_true_2.
  - rewrite Hinit. rewrite <- Hsame at 3. apply surjective_pairing.
Qed.

Lemma bindEventDelegate_bound select g editor eventName :
  bound select (bindEventDelegate select g editor eventName).1
    (bindEventDelegate select g editor eventName).2 eventName.
Proof.
  destruct (hasDelegate editor eventName || removed editor) eqn:Hskip.
  { rewrite bindEventDelegate_skip by done. simpl.
    split; [by rewrite initDelegates_delegates|].
    apply orb_true_iff in Hskip as [Hh|Hr].
    - left. by rewrite hasDelegate_init.
    - right. left. by rewrite initDelegates_set. }
  destruct (getEventTarget select (initDelegates editor) eventName)
    as [t editorT] eqn:Hget.
  pose proof (getEventTarget_idem _ _ _ _ _ Hget) as Hget2.
  destruct (getEventTarget_editor select (initDelegates editor) eventName) as [r Hr].
  rewrite Hget in Hr. simpl in Hr.
  destruct (resolved_editor_facts r editor)
    as (Hinit & HhasT & HremT & HrootT & HidT & HdsT).
  rewrite <- Hr in Hinit, HhasT, HremT, HrootT, HidT, HdsT.
  destruct (truthy (getEventRoot editor)) eqn:Hroot.
  - rewrite (bindEventDelegate_shared _ _ _ _ _ _ Hskip Hget Hroot). cbv zeta.
    case_bool_decide as Hreg; simpl.
    + split; [by rewrite HdsT|]. right. right.
      split; [by rewrite HrootT|]. split; [by rewrite Hget2|].
      unfold initRegistry in *.
      destruct (customEventRootDelegates g) as [registry|] eqn:Hcr; simpl in *.
      * exists registry. rewrite ?Hcr in Hreg. by split.
      * rewrite ?Hcr in Hreg. simpl in Hreg. rewrite lookup_empty in Hreg.
        by destruct Hreg.
    + split; [by rewrite HdsT|]. right. right.
      split; [by rewrite HrootT|]. split; [by rewrite Hget2|].
      eexists. split; [done|]. by rewrite lookup_insert_eq.
  - rewrite (bindEventDelegate_private _ _ _ _ _ _ Hskip Hget Hroot). cbv zeta.
    simpl. split; [done|]. left. apply hasDelegate_insert.
Qed.

Lemma bound_bindEventDelegate select g editor m n :
  bound select g editor n ->
  bound select (bindEventDelegate select g editor m).1
    (bindEventDelegate select g editor m).2 n.
Proof.
  intros [[ds Hds] Hcases].
  assert (Hinit : initDelegates editor = editor)
    by (unfold initDelegates; by rewrite Hds).
  destruct (hasDelegate editor m || removed editor) eqn:Hskip.
  { rewrite bindEventDelegate_skip by done. simpl. rewrite Hinit.
    split; [by exists ds | done]. }
  apply orb_false_iff in Hskip as Hparts. destruct Hparts as [Hhas Hrem].
  destruct (getEventTarget select (initDelegates editor) m) as [t editorT] eqn:Hget.
  destruct (getEventTarget_editor select (initDelegates editor) m) as [r Hr].
  rewrite Hget in Hr. simpl in Hr.
  destruct (resolved_editor_facts r editor)
    as (_ & HhasT & HremT & HrootT & HidT & HdsT).
  rewrite <- Hr in HhasT, HremT, HrootT, HidT, HdsT.
  assert (HeT : editorT = (getEventTarget select editor m).2)
    by (by rewrite <- Hinit, Hget).
  destruct (truthy (getEventRoot editor)) eqn:Hroot.
  - rewrite (bindEventDelegate_shared _ _ _ _ _ _ Hskip Hget Hroot). cbv zeta.
    assert (Hcommon : forall g1,
      (forall registry, customEventRootDelegates g = Some registry ->
         is_Some (registry !! n) ->
         exists registry1, customEventRootDelegates g1 = Some registry1
                           /\ is_Some (registry1 !! n)) ->
      bound select g1 editorT n).
    { intros g1 Hg1. split; [by rewrite HdsT|].
      destruct Hcases as [Hh|[Hr'|(_ & Hsame & registry & Hreg & Hin)]].
      - left. by rewrite HhasT.
      - right. left. by rewrite HremT.
      - right. right. split; [by rewrite HrootT|].
        split; [rewrite HeT; by apply getEventTarget_after_editor|].
        by apply (Hg1 registry). }
    case_bool_decide as Hreg; simpl; apply Hcommon.
    + intros registry Hcr Hin. unfold initRegistry. rewrite Hcr. simpl.
      by exists registry.
    + intros registry Hcr Hin. eexists. split; [done|].
      unfold initRegistry. rewrite Hcr. simpl. rewrite Hcr. simpl.
      destruct (decide (m = n)) as [->|Hne];
        [by rewrite lookup_insert_eq | by rewrite lookup_insert_ne].
  - rewrite (bindEventDelegate_private _ _ _ _ _ _ Hskip Hget Hroot). cbv zeta.
    simpl. split; [done|].
    destruct Hcases as [Hh|[Hr'|(Hroot' & _)]]; [|congruence..].
    left. unfold hasDelegate in *. simpl. rewrite Hds in *. simpl in *.
    apply hasMember_true in Hh as [Hown|Hname];
      [|by apply hasMember_inherited].
    apply hasMember_own. destruct (decide (m = n)) as [->|Hne].
    + by rewrite lookup_insert_eq.
    + by rewrite lookup_insert_ne.
Qed.

(** The step of the loop in [bindPendingEventDelegates]. *)
Lemma foldl_bind_bound_keeps select names :
  forall g editor n,
    bound select g editor n ->
    bound select
      (foldl (fun '(g, self) name => bindEventDelegate select g self name)
         (g, editor) names).1
      (foldl (fun '(g, self) name => bindEventDelegate select g self name)
         (g, editor) names).2 n.
Proof.
  induction names as [|m names IH]; intros g editor n Hb; [done|].
  simpl. destruct (bindEventDelegate select g editor m) as [g1 e1] eqn:Hbind.
  apply IH. pose proof (bound_bindEventDelegate select g editor m n Hb) as Hb1.
  by rewrite Hbind in Hb1.
Qed.

Lemma foldl_bind_bound select names :
  forall g editor n,
    n ∈ names ->
    bound select
      (foldl (fun '(g, self) name => bindEventDelegate select g self name)
         (g, editor) names).1
      (foldl (fun '(g, self) name => bindEventDelegate select g self name)
         (g, editor) names).2 n.
Proof.
  induction names as [|m names IH]; intros g editor n Hin.
  { by apply elem_of_nil in Hin. }
  simpl. destruct (bindEventDelegate select g editor m) as [g1 e1] eqn:Hbind.
  apply elem_of_cons in Hin as [->|Hin]; [|by apply IH].
  apply foldl_bind_bound_keeps.
  pose proof (bindEventDelegate_bound select g editor m) as Hb.
  by rewrite Hbind in Hb.
Qed.

Lemma foldl_bind_fix select names :
  forall g editor,
    (forall n, n ∈ names -> bound select g editor n) ->
    foldl (fun '(g, self) name => bindEventDelegate select g self name)
      (g, editor) names
    = (g, editor).
Proof.
  induction names as [|m names IH]; intros g editor Hall; [done|].
  simpl. rewrite (bound_fix _ _ _ _ (Hall m ltac:(by left))).
  apply IH. intros n Hn. apply Hall. by right.
Qed.

Lemma foldl_bind_editor select names :
  forall g editor,
    exists d r,
      (foldl (fun '(g, self) name => bindEventDelegate select g self name)
         (g, editor) names).2
      = set_delegates d (set_eventRoot r editor).
Proof.
  induction names as [|m names IH]; intros g editor.
  { exists (delegates editor), (eventRoot editor). by destruct editor. }
  simpl. destruct (bindEventDelegate select g editor m) as [g1 e1] eqn:Hbind.
  destruct (bindEventDelegate_editor select g editor m) as (d & r & He1).
  rewrite Hbind in He1. simpl in He1. subst e1.
  destruct (IH g1 (set_delegates d (set_eventRoot r editor))) as (d' & r' & ->).
  by exists d', r'.
Qed.

(** X3. Flushing the queue twice is the same as flushing it once:
    [bindPendingEventDelegates] leaves the queue as it is, and once it
    has run [bindEventDelegate] has nothing left to do for any queued
    name. *)
Theorem bindPendingEventDelegates_again select g self g1 self1 :
  bindPendingEventDelegates select g self = (g1, self1) ->
  _pendingNativeEvents self1 = _pendingNativeEvents self
  /\ (forall n, n ∈ default [] (_pendingNativeEvents self) ->
                bindEventDelegate select g1 self1 n = (g1, self1))
  /\ bindPendingEventDelegates select g1 self1 = (g1, self1).
Proof.
  unfold bindPendingEventDelegates. intros Hflush.
  destruct (foldl_bind_editor select (default [] (_pendingNativeEvents self)) g self)
    as (d & r & Hshape).
  rewrite Hflush in Hshape. simpl in Hshape.
  assert (Hpending : _pendingNativeEvents self1 = _pendingNativeEvents self)
    by (by rewrite Hshape).
  assert (Hbound : forall n, n ∈ default [] (_pendingNativeEvents self) ->
                             bound select g1 self1 n).
  { intros n Hn.
    pose proof (foldl_bind_bound select _ g self n Hn) as Hb.
    by rewrite Hflush in Hb. }
  split; [done|]. split; [intros n Hn; by apply bound_fix, Hbound|].
  rewrite Hpending. by apply foldl_bind_fix.
Qed.

Lemma bindPendingEventDelegates_again_witness :
  let self :=
    set_pendingNativeEvents (Some ["click"; "keydown"]) Samples.iframeI in
  let r := bindPendingEventDelegates Samples.select Samples.fresh self in
  List.length (listeners r.1) = 2
  /\ bindPendingEventDelegates Samples.select r.1 r.2 = r.
Proof.
  intros self r. split; [reflexivity|].
  exact (proj2 (proj2 (bindPendingEventDelegates_again Samples.select
                         Samples.fresh self r.1 r.2 eq_refl))).
Defined.

Lemma queueNames_app names1 names2 self :
  queueNames names2 (queueNames names1 self) = queueNames (names1 ++ names2) self.
Proof.
  destruct names1 as [|n1 names1]; [done|].
  destruct names2 as [|n2 names2]; simpl.
  - by rewrite app_nil_r.
  - unfold set_pendingNativeEvents. simpl. by rewrite <- app_assoc.
Qed.

Lemma toggleNativeEvent_uninitialized select g self name state :
  initialized self = false ->
  toggleNativeEvent select g self name state
  = Ok (g, queueNames (if state && nativeName name then [name] else []) self).
Proof.
  intros Hinit. unfold toggleNativeEvent, nativeName. rewrite Hinit.
  destruct (String.eqb name "focus" || String.eqb name "blur"); simpl.
  { by rewrite andb_false_r. }
  rewrite andb_true_r. destruct state; simpl; [|done].
  by destruct (_pendingNativeEvents self).
Qed.

Lemma queueNames_initialized names self :
  initialized (queueNames names self) = initialized self.
Proof. by destruct names. Qed.

(** X4. Before the editor is initialized no run of toggles binds
    anything: the module state stays as it is, and the editor only gets
    the names that were toggled on (["focus"] and ["blur"] apart) put at
    the end of its queue, in the order of the calls.  A toggle to off
    takes nothing out of the queue. *)
Theorem toggleMany_uninitialized select g self toggles :
  initialized self = false ->
  toggleMany select g self toggles
  = Ok (g, queueNames
             (List.filter (fun t => t.2 && nativeName t.1) toggles).*1 self).
Proof.
  unfold toggleMany. revert self.
  induction toggles as [|[name state] toggles IH]; intros self Hinit; [done|].
  cbn [foldl]. rewrite (toggleNativeEvent_uninitialized _ _ _ _ _ Hinit).
  rewrite IH by (by rewrite queueNames_initialized).
  rewrite queueNames_app. cbn [List.filter fst snd].
  by destruct (state && nativeName name).
Qed.

Lemma toggleMany_uninitialized_witness :
  toggleMany Samples.select Samples.fresh
    (mkEditor "U" true false false false false None None None None
       Samples.page None false 0 None false)
    [("click", true); ("focus", true); ("click", false); ("keydown", true)]
  = Ok (Samples.fresh,
        mkEditor "U" true false false false false None None None
          (Some ["click"; "keydown"]) Samples.page None false 0 None false).
Proof.
  exact (toggleMany_uninitialized Samples.select Samples.fresh
           (mkEditor "U" true false false false false None None None None
              Samples.page None false 0 None false)
           [("click", true); ("focus", true); ("click", false); ("keydown", true)]
           eq_refl).
Defined.

(** X5. A name toggled on and off again before the editor is initialized
    is still in the queue, and flushing the queue binds it: afterwards
    [bindEventDelegate] has nothing left to do for it, and, for a name
    that plain objects do not inherit, a live editor has a delegate of
    its own under the name, or the shared registry has one. *)
Theorem bindPendingEventDelegates_after_off select g self name :
  initialized self = false ->
  nativeName name = true ->
  exists self1,
    toggleMany select g self [(name, true); (name, false)] = Ok (g, self1)
    /\ name ∈ default [] (_pendingNativeEvents self1)
    /\ let flushed := bindPendingEventDelegates select g self1 in
       bindEventDelegate select flushed.1 flushed.2 name = flushed
       /\ (removed self = false -> inherited name = false ->
           is_Some (registered flushed.2 name)
           \/ exists registry,
                customEventRootDelegates flushed.1 = Some registry
                /\ is_Some (registry !! name)).
Proof.
  intros Hinit Hname. eexists. split.
  { unfold toggleMany. cbn [foldl fst snd].
    rewrite (toggleNativeEvent_uninitialized _ _ _ _ _ Hinit), Hname.
    rewrite toggleNativeEvent_uninitialized by done. reflexivity. }
  simpl. split; [set_solver|].
  set (self1 := set_pendingNativeEvents _ self).
  assert (Hin : name ∈ default [] (_pendingNativeEvents self1)) by (simpl; set_solver).
  pose proof (foldl_bind_bound select _ g self1 name Hin) as Hb.
  fold (bindPendingEventDelegates select g self1) in Hb.
  split.
  - rewrite (bound_fix _ _ _ _ Hb). by destruct (bindPendingEventDelegates _ _ _).
  - intros Hlive Hplain.
    destruct (foldl_bind_editor select (default [] (_pendingNativeEvents self1)) g self1)
      as (d & r & Hshape).
    fold (bindPendingEventDelegates select g self1) in Hshape.
    destruct Hb as [[ds Hds] [Hh|[Hr|(_ & _ & Hreg)]]]; [| | by right].
    + left. unfold hasDelegate in Hh. unfold registered.
      rewrite Hds in *. simpl in *.
      apply hasMember_true in Hh as [Hown|Hinh]; [done | congruence].
    + rewrite Hshape in Hr. simpl in Hr. congruence.
Qed.

Lemma bindPendingEventDelegates_after_off_witness :
  let self :=
    mkEditor "U" false false false false false None None None None
      (mkNode 3 []) (Some (mkNode 3 [1; 0])) false 3 None true in
  exists self1,
    toggleMany Samples.select Samples.fresh self [("click", true); ("click", false)]
    = Ok (Samples.fresh, self1)
    /\ is_Some (registered (bindPendingEventDelegates Samples.select Samples.fresh self1).2
                  "click").
Proof.
  intros self.
  destruct (bindPendingEventDelegates_after_off Samples.select Samples.fresh self
              "click" eq_refl eq_refl) as (self1 & Hrun & _ & _ & Hbound).
  exists self1. split; [exact Hrun|].
  destruct (Hbound eq_refl eq_refl) as [Hh|(registry & Hreg & _)]; [exact Hh|].
  exfalso. injection Hrun as <-. vm_compute in Hreg. discriminate.
Defined.

(* ===================================================================== *)
(** ** Toggling on an initialized editor *)
(* ===================================================================== *)

Lemma unbind_id (t : option EventTarget) name (func : option Delegate) ls :
  (forall l t', l ∈ ls -> t = Some t' -> selected t' name func l = false) ->
  unbind t name func ls = ls.
Proof.
  unfold unbind. destruct t as [t'|]; [|done]. intros Hall.
  induction ls as [|l ls IH]; [done|]. simpl.
  rewrite (Hall l t' ltac:(by left) eq_refl). simpl. f_equal.
  apply IH. intros l' t'' Hl' Ht''. apply Hall; [by right | done].
Qed.

Lemma unbind_bind_fresh (t : option EventTarget) name (d : Delegate) ls :
  (forall l, l ∈ ls -> l_func l ≠ d) ->
  unbind t (Some name) (Some d) (bind t name d ls) = ls.
Proof.
  intros Hfresh. destruct t as [t'|]; [|done]. unfold bind, unbind.
  rewrite List.filter_app. simpl. unfold selected at 2. simpl.
  rewrite !bool_decide_eq_true_2 by done. simpl. rewrite app_nil_r.
  apply (unbind_id (Some t')). intros l t'' Hl [= <-]. unfold selected.
  rewrite (bool_decide_eq_false_2 (l_func l = d)) by by apply Hfresh.
  by rewrite andb_false_r.
Qed.

Lemma toggleNativeEvent_native select g self name state :
  nativeName name = true ->
  toggleNativeEvent select g self name state
  = if state then
      if initialized self then Ok (bindEventDelegate select g self name)
      else Ok (g, queueNames [name] self)
    else if initialized self then
      if dom self then
        match delegates self with
        | None => TypeError
        | Some ds =>
            Ok (mkGlobal (customEventRootDelegates g)
                  (unbindMember (TNode <$> (getEventTarget select self name).1)
                     name (getMember ds name) (listeners g))
                  (removeEditorHandlers g) (nextFn g),
                set_delegates (Some (delete name ds))
                  (getEventTarget select self name).2)
        end
      else TypeError
    else Ok (g, self).
Proof.
  unfold nativeName, toggleNativeEvent. intros Hn. apply negb_true_iff in Hn.
  rewrite Hn. destruct state, (initialized self); try done.
  - unfold queueNames. by destruct (_pendingNativeEvents self).
  - destruct (dom self); [|done].
    destruct (getEventTarget_editor select self name) as [r Hr].
    destruct (getEventTarget select self name) as [t self'] eqn:Hget.
    simpl in Hr. subst self'. simpl. by destruct (delegates self).
Qed.

Lemma getEventTarget_set_pendingNativeEvents select p editor eventName :
  (getEventTarget select (set_pendingNativeEvents p editor) eventName).1
  = (getEventTarget select editor eventName).1.
Proof.
  unfold getEventTarget, getEventRoot. simpl.
  destruct (String.eqb eventName "selectionchange"); [done|].
  destruct (negb (inline editor) && documentElementEvent eventName); [done|].
  destruct (event_root editor) as [[|c sel]|]; try done.
  by destruct (eventRoot editor).
Qed.

(** Toggling keeps the private listeners of an editor in step with its
    [delegates], as binding does. *)
Lemma privateRegistered_toggle select g self name state g1 self1 :
  privateRegistered select g self ->
  toggleNativeEvent select g self name state = Ok (g1, self1) ->
  privateRegistered select g1 self1.
Proof.
  intros Hreg. destruct (nativeName name) eqn:Hname; cycle 1.
  { unfold toggleNativeEvent, nativeName in *. apply negb_false_iff in Hname.
    rewrite Hname. by intros [= <- <-]. }
  rewrite toggleNativeEvent_native by done.
  destruct state, (initialized self).
  - intros [= Hbind]. eapply privateRegistered_bind; [exact Hreg|].
    by rewrite (surjective_pairing (bindEventDelegate select g self name)), Hbind.
  - intros [= <- <-]. intros l n Hl Hkind.
    destruct (Hreg l n Hl Hkind) as (ds & Hds & Hlook & Ht).
    exists ds. unfold queueNames. by rewrite getEventTarget_set_pendingNativeEvents.
  - destruct (dom self); [|done].
    destruct (delegates self) as [ds|] eqn:Hds; [|done].
    destruct (getEventTarget_editor select self name) as [r Hr].
    intros [= <- <-]. intros l n Hl Hkind. cbn [listeners] in Hl.
    rewrite Hr in Hkind. pose proof (unbindMember_subset _ _ _ _ _ Hl) as Hl0.
    destruct (Hreg l n Hl0 Hkind) as (ds' & Hds' & Hlook & Ht).
    rewrite Hds in Hds'. injection Hds' as <-.
    eexists. split; [reflexivity|].
    rewrite getEventTarget_set_delegates, getEventTarget_after.
    split; [|done].
    destruct (decide (l_name l = name)) as [Heq|Hne];
      [|by rewrite lookup_delete_ne].
    exfalso. rewrite Heq in Hlook, Ht.
    rewrite (getMember_own _ _ _ Hlook), Ht in Hl. cbn [unbindMember] in Hl.
    apply unbind_elem in Hl as [_ Hsel]. specialize (Hsel _ eq_refl).
    unfold selected in Hsel. simpl in Hsel.
    by rewrite !bool_decide_eq_true_2 in Hsel.
  - by intros [= <- <-].
Qed.

(** X6. On an initialized editor without an event root, toggling on a
    name for which [self.delegates[name]] counts as false (so none that
    plain objects inherit) registers a new delegate of the editor's own
    and binds it on the event target, and toggling the name off again
    takes off exactly that listener: the listeners, the shared registry
    and the registered delegates are as before, the editor has at most
    gained an empty [delegates] object.  (The delegate is a new function,
    so it is none of the callbacks bound before.) *)
Theorem toggleNativeEvent_on_off select g self name :
  nativeName name = true ->
  initialized self = true -> dom self = true -> removed self = false ->
  truthy (getEventRoot self) = false ->
  hasDelegate self name = false ->
  (forall l, l ∈ listeners g -> fn (l_func l) ≠ nextFn g) ->
  exists g1 self1,
    toggleNativeEvent select g self name true = Ok (g1, self1)
    /\ registered self1 name
       = Some (mkDelegate (nextFn g) (EditorDelegate (id self) name))
    /\ listeners g1
       = bind (TNode <$> (getEventTarget select self name).1) name
           (mkDelegate (nextFn g) (EditorDelegate (id self) name)) (listeners g)
    /\ toggleNativeEvent select g1 self1 name false
       = Ok (mkGlobal (customEventRootDelegates g) (listeners g)
               (removeEditorHandlers g) (S (nextFn g)),
             set_delegates (Some (default ∅ (delegates self))) self).
Proof.
  intros Hname Hinit Hdom Hrem Hroot Hhas Hfresh.
  assert (Hskip : hasDelegate self name || removed self = false)
    by (by rewrite Hhas, Hrem).
  apply hasDelegate_false in Hhas as [Hown _].
  pose proof (getEventTarget_no_root select (initDelegates self) name) as Hsame.
  destruct (getEventTarget select (initDelegates self) name) as [t editorT] eqn:Hget.
  simpl in Hsame. rewrite Hsame in Hget by (by rewrite initDelegates_set).
  clear Hsame editorT.
  assert (Ht : t = (getEventTarget select self name).1).
  { by rewrite <- (getEventTarget_set_delegates select
                    (Some (default ∅ (delegates self))) self),
      <- initDelegates_set, Hget. }
  eexists _, _. split.
  { rewrite toggleNativeEvent_native, Hinit by done.
    rewrite (bindEventDelegate_private _ _ _ _ _ _ Hskip Hget Hroot).
    cbv zeta. reflexivity. }
  split.
  { unfold registered. simpl. by rewrite lookup_insert_eq. }
  split; [by rewrite Ht|].
  rewrite toggleNativeEvent_native by done.
  rewrite initDelegates_set in *.
  set (d := mkDelegate (nextFn g) (EditorDelegate (id self) name)).
  set (self1 := set_delegates (Some (<[name:=d]> (default ∅ (delegates self))))
                  (set_delegates (Some (default ∅ (delegates self))) self)).
  assert (Hget1 : getEventTarget select self1 name = (t, self1)).
  { rewrite (surjective_pairing (getEventTarget select self1 name)).
    f_equal.
    - unfold self1. rewrite getEventTarget_set_delegates. by rewrite Hget.
    - by apply getEventTarget_no_root. }
  replace (initialized self1) with true by done.
  replace (dom self1) with true by done.
  rewrite Hget1. cbn [delegates self1 set_delegates customEventRootDelegates
                      listeners removeEditorHandlers nextFn fst snd].
  rewrite (getMember_own _ _ d) by (by rewrite lookup_insert_eq).
  cbn [unbindMember]. rewrite unbind_bind_fresh.
  - by rewrite delete_insert_id.
  - intros l Hl Heq. apply (Hfresh l Hl). by rewrite Heq.
Qed.

Lemma toggleNativeEvent_on_off_witness :
  exists g1 self1,
    toggleNativeEvent Samples.select Samples.fresh Samples.iframeI "click" true
    = Ok (g1, self1)
    /\ List.length (listeners g1) = 1
    /\ toggleNativeEvent Samples.select g1 self1 "click" false
       = Ok (mkGlobal None [] [] 1, set_delegates (Some ∅) Samples.iframeI).
Proof.
  destruct (toggleNativeEvent_on_off Samples.select Samples.fresh Samples.iframeI
              "click" eq_refl eq_refl eq_refl eq_refl eq_refl eq_refl
              ltac:(intros l Hl; by apply elem_of_nil in Hl))
    as (g1 & self1 & Hon & _ & _ & Hoff).
  exists g1, self1. split; [exact Hon|]. split; [|exact Hoff].
  injection Hon as <- _. reflexivity.
Defined.

(** X7. [toggleNativeEvent] throws in one situation only: a name other
    than ["focus"] and ["blur"] is toggled off on an initialized editor
    that has no [dom] or no [delegates] object. *)
Theorem toggleNativeEvent_throws select g self name state :
  toggleNativeEvent select g self name state = TypeError
  <-> nativeName name = true /\ state = false /\ initialized self = true
      /\ (dom self = false \/ delegates self = None).
Proof.
  destruct (nativeName name) eqn:Hname.
  - rewrite toggleNativeEvent_native by done.
    destruct state, (initialized self), (dom self), (delegates self);
      split; try done; try (intros (_ & ? & ? & [?|?]); done);
      try (by repeat split; auto).
  - unfold toggleNativeEvent, nativeName in *. apply negb_false_iff in Hname.
    rewrite Hname. split; [done | by intros [? _]].
Qed.

(** X8. [unbindAllNativeEvents] throws exactly when the editor has a
    registered delegate but no [dom]: the loop over the delegates calls
    [self.dom.unbind] unguarded, the rest of the function asks for [dom]
    first. *)
Theorem unbindAllNativeEvents_throws select g self :
  unbindAllNativeEvents select g self = TypeError
  <-> dom self = false /\ exists n d, registered self n = Some d.
Proof.
  unfold unbindAllNativeEvents, registered.
  destruct (delegates self) as [ds|] eqn:Hds; simpl.
  - destruct (dom self) eqn:Hdom.
    + destruct (foldl_unbindDelegate_dom select (map_to_list ds) (listeners g)
                  self Hdom) as (ls' & r & -> & _).
      simpl.
      destruct (negb (inline self) && bool_decide (is_Some (body self)) && true);
        (split; [done | by intros [? _]]).
    + destruct (decide (ds = ∅)) as [->|Hne].
      * rewrite map_to_list_empty. simpl. rewrite andb_false_r.
        split; [done|]. intros (_ & n & d & Hn). by rewrite lookup_empty in Hn.
      * rewrite foldl_unbindDelegate_no_dom; [|done|].
        -- split; [|done]. intros _. split; [done|].
           destruct (map_choose ds Hne) as (n & d & Hn). by exists n, d.
        -- intros Hnil. by apply map_to_list_empty_iff in Hnil.
  - destruct (negb (inline self) && bool_decide (is_Some (body self)) && dom self);
      destruct (dom self); simpl; split; try done; by intros (_ & n & d & ?).
Qed.

Lemma unbind_settled (t : option EventTarget) name (func : option Delegate) ls ls0 :
  (forall l, l ∈ ls -> l ∈ unbind t name func ls0) ->
  unbind t name func ls = ls.
Proof.
  intros Hin. apply unbind_id. intros l t' Hl Ht'.
  apply Hin, unbind_elem in Hl as [_ Hsel]. by apply Hsel.
Qed.

Lemma unbind_two_again (tb tc : option EventTarget) (ls : list (Listener Delegate)) :
  unbind tc None None (unbind tb None None
    (unbind tc None None (unbind tb None None ls)))
  = unbind tc None None (unbind tb None None ls).
Proof.
  rewrite (unbind_settled tb None None _ ls)
    by (intros l Hl; by apply unbind_subset in Hl).
  by eapply unbind_settled.
Qed.

Lemma unbind_four_again (tw td tb tc : option EventTarget)
    (ls : list (Listener Delegate)) :
  unbind tc None None (unbind tb None None (unbind td None None (unbind tw None None
    (unbind tc None None (unbind tb None None
       (unbind td None None (unbind tw None None ls)))))))
  = unbind tc None None (unbind tb None None
      (unbind td None None (unbind tw None None ls))).
Proof.
  rewrite (unbind_settled tw None None _ ls)
    by (intros l Hl; by do 3 apply unbind_subset in Hl).
  rewrite (unbind_settled td None None _ (unbind tw None None ls))
    by (intros l Hl; by do 2 apply unbind_subset in Hl).
  apply unbind_two_again.
Qed.

(** X9. A second [unbindAllNativeEvents] changes nothing and does not
    throw: the first one has taken the [delegates] object away, and what
    it took off the window, the document, the body and the container is
    off. *)
Theorem unbindAllNativeEvents_again select g self g1 self1 :
  unbindAllNativeEvents select g self = Ok (g1, self1) ->
  unbindAllNativeEvents select g1 self1 = Ok (g1, self1).
Proof.
  intros Hrun.
  destruct (unbindAllNativeEvents_result _ _ _ _ _ Hrun)
    as (ls1 & r & _ & _ & -> & ->).
  unfold unbindAllNativeEvents.
  destruct (negb (inline self) && bool_decide (is_Some (body self)) && dom self)
    eqn:Hcond; destruct (dom self) eqn:Hdom; simpl; rewrite ?Hdom, ?Hcond; simpl;
    try done.
  - by rewrite unbind_four_again.
  - by rewrite andb_false_r in Hcond.
  - by rewrite unbind_two_again.
Qed.

Lemma unbindAllNativeEvents_again_witness :
  unbindAllNativeEvents Samples.select Samples.boundI.1 Samples.boundI.2
  = Ok (mkGlobal None [] [] 1,
        set_body_onload false (set_delegates None Samples.boundI.2))
  /\ unbindAllNativeEvents Samples.select (mkGlobal None [] [] 1)
       (set_body_onload false (set_delegates None Samples.boundI.2))
     = Ok (mkGlobal None [] [] 1,
           set_body_onload false (set_delegates None Samples.boundI.2)).
Proof.
  split; [reflexivity|].
  exact (unbindAllNativeEvents_again Samples.select Samples.boundI.1
           Samples.boundI.2 _ _ eq_refl).
Defined.

(** X10. [unbindAllNativeEvents] adds no listener and leaves the shared
    registry, the ['removeEditor'] handlers and every listener alone
    whose callback is none of the editor's registered delegates and that
    is not on the editor's window, document, body or container: the
    private delegates of other editors stay bound. *)
Theorem unbindAllNativeEvents_frame select g self g1 self1 :
  unbindAllNativeEvents select g self = Ok (g1, self1) ->
  customEventRootDelegates g1 = customEventRootDelegates g
  /\ removeEditorHandlers g1 = removeEditorHandlers g
  /\ delegates self1 = None
  /\ (forall l, l ∈ listeners g1 -> l ∈ listeners g)
  /\ (forall l,
        l ∈ listeners g ->
        (forall n, registered self n ≠ Some (l_func l)) ->
        l_target l ≠ TWindow (win self) -> l_target l ≠ TNode (doc self) ->
        Some (l_target l) ≠ TNode <$> body self ->
        Some (l_target l) ≠ TNode <$> container self ->
        l ∈ listeners g1).
Proof.
  intros Hrun.
  destruct (unbindAllNativeEvents_result _ _ _ _ _ Hrun)
    as (ls1 & r & Hsub & Hkeep & -> & ->).
  split; [done|]. split; [done|].
  split.
  { by destruct (negb (inline self) && bool_decide (is_Some (body self)) && dom self). }
  simpl. split.
  - intros l Hl. apply Hsub.
    destruct (negb (inline self) && bool_decide (is_Some (body self)) && dom self),
      (dom self); by repeat apply unbind_subset in Hl.
  - intros l Hl Hfunc Hw Hd Hb Hc. specialize (Hkeep l Hl Hfunc).
    destruct (negb (inline self) && bool_decide (is_Some (body self)) && dom self),
      (dom self); repeat apply unbind_keeps; try done; congruence.
Qed.

Lemma unbindAllNativeEvents_frame_witness :
  let other :=
    mkListener (TNode (mkNode 2 [0])) "click"
      (mkDelegate 9 (EditorDelegate "J" "click")) in
  let g := mkGlobal None (other :: listeners Samples.boundI.1) [] 10 in
  exists g1 self1,
    unbindAllNativeEvents Samples.select g Samples.boundI.2 = Ok (g1, self1)
    /\ other ∈ listeners g1.
Proof.
  intros other g. eexists _, _. split; [reflexivity|].
  refine (proj2 (proj2 (proj2 (proj2
    (unbindAllNativeEvents_frame Samples.select g Samples.boundI.2 _ _ eq_refl))))
    other _ _ _ _ _ _); try discriminate.
  - by left.
  - intros n Hn.
    change (registered Samples.boundI.2 n)
      with ((<["click" := mkDelegate 0 (EditorDelegate "I" "click")]>
               (∅ : gmap string Delegate)) !! n) in Hn.
    apply lookup_insert_Some in Hn as [[_ Hd]|[_ Hn]]; [discriminate|].
    by rewrite lookup_empty in Hn.
Defined.

(** X11. Toggling a name off on an initialized editor takes away at most
    listeners of that name on the event target of that name, adds none,
    forgets the editor's delegate of that name and no other, and leaves
    the shared registry as it is. *)
Theorem toggleNativeEvent_off_frame select g self name g1 self1 :
  toggleNativeEvent select g self name false = Ok (g1, self1) ->
  customEventRootDelegates g1 = customEventRootDelegates g
  /\ removeEditorHandlers g1 = removeEditorHandlers g
  /\ nextFn g1 = nextFn g
  /\ (forall l, l ∈ listeners g1 -> l ∈ listeners g)
  /\ (forall l,
        l ∈ listeners g ->
        l_name l ≠ name
        \/ Some (l_target l) ≠ TNode <$> (getEventTarget select self name).1 ->
        l ∈ listeners g1)
  /\ (nativeName name = true -> initialized self = true ->
      registered self1 name = None
      /\ forall m, m ≠ name -> registered self1 m = registered self m).
Proof.
  destruct (nativeName name) eqn:Hname; cycle 1.
  { unfold toggleNativeEvent, nativeName in *. apply negb_false_iff in Hname.
    rewrite Hname. intros [= <- <-]. by repeat split. }
  rewrite toggleNativeEvent_native by done.
  destruct (initialized self); [|intros [= <- <-]; by repeat split].
  destruct (dom self); [|done]. destruct (delegates self) as [ds|] eqn:Hds; [|done].
  intros [= <- <-]. simpl. do 3 (split; [done|]). split; [|split].
  - intros l Hl. by apply unbindMember_subset in Hl.
  - intros l Hl Hor. by apply unbindMember_keeps.
  - intros _ _. unfold registered. simpl. rewrite Hds. simpl.
    split; [by rewrite lookup_delete_eq|].
    intros m Hne. by rewrite lookup_delete_ne.
Qed.

Lemma toggleNativeEvent_off_frame_witness :
  let keydown :=
    mkListener (TNode (mkNode 1 [1; 0])) "keydown"
      (mkDelegate 5 (EditorDelegate "I" "keydown")) in
  let g := mkGlobal None (keydown :: listeners Samples.boundI.1) [] 6 in
  exists g1 self1,
    toggleNativeEvent Samples.select g Samples.boundI.2 "click" false
    = Ok (g1, self1)
    /\ keydown ∈ listeners g1
    /\ registered self1 "click" = None.
Proof.
  intros keydown g. eexists _, _. split; [reflexivity|].
  destruct (toggleNativeEvent_off_frame Samples.select g Samples.boundI.2 "click"
              _ _ eq_refl) as (_ & _ & _ & _ & Hkeep & Hreg).
  split.
  - apply Hkeep; [by left | left; discriminate].
  - exact (proj1 (Hreg eq_refl eq_refl)).
Defined.

(** X12. On an editor with an event root, once the shared registry has a
    name: toggling the name off leaves the entry in the registry, and
    toggling it on again installs nothing, the module state stays as the
    toggle to off left it. *)
Theorem toggleNativeEvent_shared_again select g self name registry g1 self1 :
  nativeName name = true -> initialized self = true ->
  truthy (getEventRoot self) = true ->
  customEventRootDelegates g = Some registry -> is_Some (registry !! name) ->
  toggleNativeEvent select g self name false = Ok (g1, self1) ->
  customEventRootDelegates g1 = Some registry
  /\ registered self1 name = None
  /\ exists self2, toggleNativeEvent select g1 self1 name true = Ok (g1, self2).
Proof.
  intros Hname Hinit Hroot Hreg Hin. rewrite toggleNativeEvent_native, Hinit by done.
  destruct (dom self); [|done]. destruct (delegates self) as [ds|] eqn:Hds; [|done].
  destruct (getEventTarget_editor select self name) as [r Hr].
  intros [= <- <-]. rewrite Hr. simpl. split; [done|].
  split; [unfold registered; simpl; by rewrite lookup_delete_eq|].
  rewrite toggleNativeEvent_native by done. simpl. rewrite Hinit.
  set (g1 := mkGlobal _ _ _ _).
  set (self1 := set_delegates _ _).
  destruct (hasDelegate self1 name || removed self1) eqn:Hskip.
  { rewrite bindEventDelegate_skip by done. by eexists. }
  destruct (getEventTarget select (initDelegates self1) name) as [t editorT] eqn:Hget.
  assert (Hroot1 : truthy (getEventRoot self1) = true) by exact Hroot.
  rewrite (bindEventDelegate_shared _ _ _ _ _ _ Hskip Hget Hroot1).
  cbv zeta. unfold initRegistry. simpl. rewrite Hreg. simpl. rewrite Hreg. simpl.
  rewrite bool_decide_eq_true_2 by done. by eexists.
Qed.

Lemma toggleNativeEvent_shared_again_witness :
  exists g1 self1 self2,
    toggleNativeEvent Samples.select Samples.boundA.1 Samples.boundA.2 "click" false
    = Ok (g1, self1)
    /\ is_Some (default ∅ (customEventRootDelegates g1) !! "click")
    /\ toggleNativeEvent Samples.select g1 self1 "click" true = Ok (g1, self2).
Proof.
  destruct (toggleNativeEvent_shared_again Samples.select Samples.boundA.1
              Samples.boundA.2 "click"
              (<["click" := mkDelegate 0 (CustomRootDelegate "click")]> ∅)
              _ _ eq_refl eq_refl eq_refl eq_refl ltac:(by eexists) eq_refl)
    as (Hreg & _ & self2 & Hon).
  eexists _, _, self2. split; [reflexivity|]. split; [|exact Hon].
  rewrite Hreg. by eexists.
Defined.

(** X13. When a live editor without an event root binds a name for
    which [editor.delegates[name]] counts as false, the listener it puts
    on the event target of the name is the delegate it registers under
    the name, and running that delegate is [fireEvent] on the editor as
    it is when the event arrives: hidden or read-only by then, the editor
    gets nothing fired.  Without an event target no listener is put on. *)
Theorem bindEventDelegate_delivers select g editor name g1 editor1 :
  removed editor = false -> hasDelegate editor name = false ->
  truthy (getEventRoot editor) = false ->
  bindEventDelegate select g editor name = (g1, editor1) ->
  match (getEventTarget select editor name).1 with
  | Some t =>
      exists l,
        listeners g1 = (listeners g ++ [l])%list
        /\ l_target l = TNode t /\ l_name l = name
        /\ registered editor1 name = Some (l_func l)
        /\ forall objects editors current e,
             objects !! id editor = Some current ->
             runDelegate objects editors (l_func l) e = fireEvent current name e
  | None => listeners g1 = listeners g
  end.
Proof.
  intros Hrem Hhas Hroot Hbind.
  assert (Hskip : hasDelegate editor name || removed editor = false)
    by (by rewrite Hhas, Hrem).
  destruct (getEventTarget select (initDelegates editor) name) as [t editorT] eqn:Hget.
  assert (Ht : t = (getEventTarget select editor name).1).
  { by rewrite <- (getEventTarget_set_delegates select
                    (Some (default ∅ (delegates editor))) editor),
      <- initDelegates_set, Hget. }
  rewrite (bindEventDelegate_private _ _ _ _ _ _ Hskip Hget Hroot) in Hbind.
  cbv zeta in Hbind. injection Hbind as <- <-.
  cbn [listeners]. rewrite <- Ht.
  destruct t as [t|]; unfold bind; [|done].
  eexists. split; [reflexivity|]. split; [done|]. split; [done|]. split.
  - unfold registered. simpl. by rewrite lookup_insert_eq.
  - intros objects editors current e Hcurrent.
    unfold runDelegate, editorDelegate. simpl. by rewrite Hcurrent.
Qed.

Lemma bindEventDelegate_delivers_witness :
  exists l,
    listeners Samples.boundI.1 = [l]
    /\ runDelegate {["I" := Samples.setReadonly Samples.boundI.2]} [] (l_func l)
         Samples.clickInI
       = [PreventReadOnlyEvents "I" Samples.clickInI].
Proof.
  pose proof (bindEventDelegate_delivers Samples.select Samples.fresh Samples.iframeI
                "click" Samples.boundI.1 Samples.boundI.2
                eq_refl eq_refl eq_refl eq_refl) as Hbound.
  change ((getEventTarget Samples.select Samples.iframeI "click").1)
    with (Some (mkNode 1 [0])) in Hbound.
  destruct Hbound as (l & Hl & _ & _ & _ & Hrun).
  exists l. split; [exact Hl|].
  exact (Hrun {["I" := Samples.setReadonly Samples.boundI.2]} []
           (Samples.setReadonly Samples.boundI.2) Samples.clickInI eq_refl).
Defined.

(* ===================================================================== *)
(** ** The teardown of the shared registry *)
(* ===================================================================== *)

Lemma foldl_unbindCustomRoot_error select names :
  foldl (unbindCustomRoot select) TypeError names = TypeError.
Proof. induction names as [|n names IH]; [done | exact IH]. Qed.

Lemma foldl_unbindCustomRoot select names :
  forall ls editor,
    dom editor = true ->
    exists ls' r,
      foldl (unbindCustomRoot select) (Ok (ls, editor)) names
      = Ok (ls', set_eventRoot r editor)
      /\ forall l,
           l ∈ ls'
           <-> l ∈ ls
               /\ forall n, n ∈ names ->
                    Some (l_target l) ≠ TNode <$> (getEventTarget select editor n).1.
Proof.
  induction names as [|n0 names IH]; intros ls editor Hdom.
  { exists ls, (eventRoot editor). rewrite set_eventRoot_same. split; [done|].
    intros l. split; [|by intros [? _]].
    intros Hl. split; [done|]. intros n Hn. by apply elem_of_nil in Hn. }
  simpl. rewrite Hdom.
  destruct (getEventTarget_editor select editor n0) as [r Hr].
  pose proof (fun n => getEventTarget_after select editor n0 n) as Hafter.
  destruct (getEventTarget select editor n0) as [t editor1] eqn:Hget.
  simpl in Hr, Hafter. subst editor1.
  destruct (IH (unbind (TNode <$> t) None None ls) (set_eventRoot r editor) Hdom)
    as (ls' & r' & -> & Hls).
  exists ls', r'. split; [done|].
  intros l. rewrite Hls, unbind_elem. split.
  - intros [[Hl Hsel] Hrest]. split; [done|].
    intros n Hn. apply elem_of_cons in Hn as [->|Hn].
    + rewrite Hget. simpl. intros Heq. symmetry in Heq.
      specialize (Hsel _ Heq). unfold selected in Hsel.
      by rewrite bool_decide_eq_true_2 in Hsel.
    + rewrite <- Hafter. by apply Hrest.
  - intros [Hl Hall]. split; [split; [done|]|].
    + intros t' Ht'. unfold selected.
      rewrite bool_decide_eq_false_2; [done|]. intros Heq.
      apply (Hall n0 ltac:(by left)). rewrite Hget. simpl. by rewrite Ht', Heq.
    + intros n Hn. rewrite Hafter. apply Hall. by right.
Qed.

(** X14. The ['removeEditor'] handler does nothing while an editor is
    active or the shared registry is not there.  With no active editor
    it throws only when the registry has a name and the editor it holds
    has no [dom]; otherwise it drops the registry, adds no listener, and
    takes off the listeners, and only those, that sit on the event target
    which the editor it holds has for a registered name. *)
Theorem onRemoveEditor_teardown select activeEditor g editor :
  (is_Some activeEditor \/ customEventRootDelegates g = None ->
   onRemoveEditor select activeEditor g editor = Ok (g, editor))
  /\ (forall registry,
        activeEditor = None -> customEventRootDelegates g = Some registry ->
        (onRemoveEditor select activeEditor g editor = TypeError
         <-> dom editor = false /\ registry ≠ ∅)
        /\ forall g1 editor1,
             onRemoveEditor select activeEditor g editor = Ok (g1, editor1) ->
             customEventRootDelegates g1 = None
             /\ removeEditorHandlers g1 = removeEditorHandlers g
             /\ nextFn g1 = nextFn g
             /\ forall l,
                  l ∈ listeners g1
                  <-> l ∈ listeners g
                      /\ forall n, is_Some (registry !! n) ->
                           Some (l_target l)
                           ≠ TNode <$> (getEventTarget select editor n).1).
Proof.
  unfold onRemoveEditor. split.
  - intros [[a ->]|Hnone]; [done|]. rewrite Hnone. by destruct activeEditor.
  - intros registry -> ->.
    assert (Hnames : forall n, n ∈ (map_to_list registry).*1 <-> is_Some (registry !! n)).
    { intros n. rewrite list_elem_of_fmap. split.
      - intros ([n' d] & -> & Hin). apply elem_of_map_to_list in Hin. by eexists.
      - intros [d Hd]. exists (n, d). split; [done|]. by apply elem_of_map_to_list. }
    destruct (dom editor) eqn:Hdom.
    + destruct (foldl_unbindCustomRoot select (map_to_list registry).*1
                  (listeners g) editor Hdom) as (ls' & r & -> & Hls).
      split; [split; [done | by intros [? _]]|].
      intros g1 editor1 [= <- <-]. do 3 (split; [done|]).
      intros l. simpl. rewrite Hls. split; intros [Hl Hall]; (split; [done|]);
        intros n Hn; apply Hall; by apply Hnames.
    + destruct (map_to_list registry) as [|[n0 d0] entries] eqn:Hentries.
      * apply map_to_list_empty_iff in Hentries as ->. simpl.
        split; [split; [done | by intros [_ ?]]|].
        intros g1 editor1 [= <- <-]. do 3 (split; [done|]).
        intros l. simpl. split; [|by intros [? _]].
        intros Hl. split; [done|]. intros n [d Hd]. by rewrite lookup_empty in Hd.
      * simpl. rewrite Hdom, foldl_unbindCustomRoot_error.
        split; [|done]. split; [|done]. intros _. split; [done|].
        intros ->. by rewrite map_to_list_empty in Hentries.
Qed.

Lemma onRemoveEditor_teardown_witness :
  exists g1 editor1,
    onRemoveEditor Samples.select None Samples.boundA.1 Samples.boundA.2
    = Ok (g1, editor1)
    /\ customEventRootDelegates g1 = None
    /\ removeEditorHandlers g1 = ["A"].
Proof.
  eexists _, _. split; [reflexivity|].
  destruct (proj2 (onRemoveEditor_teardown Samples.select None Samples.boundA.1
                     Samples.boundA.2)
              (<["click" := mkDelegate 0 (CustomRootDelegate "click")]> ∅)
              eq_refl eq_refl) as [_ Hdown].
  destruct (Hdown _ _ eq_refl) as (Hreg & Hhandlers & _).
  split; [exact Hreg | exact Hhandlers].
Defined.

(** What [bindEventDelegate] does to the ['removeEditor'] handlers: it
    leaves those there are, and adds the editor's exactly when the editor
    is live, has no delegate of the name, has an event root and finds no
    registry. *)
Lemma bindEventDelegate_handlers select g editor eventName :
  removeEditorHandlers (bindEventDelegate select g editor eventName).1
  = (removeEditorHandlers g
     ++ if negb (hasDelegate editor eventName || removed editor)
           && truthy (getEventRoot editor)
           && bool_decide (customEventRootDelegates g = None)
        then [id editor] else [])%list.
Proof.
  destruct (hasDelegate editor eventName || removed editor) eqn:Hskip.
  { rewrite bindEventDelegate_skip by done. simpl. by rewrite app_nil_r. }
  destruct (getEventTarget select (initDelegates editor) eventName)
    as [t editorT] eqn:Hget.
  destruct (truthy (getEventRoot editor)) eqn:Hroot; simpl.
  - rewrite (bindEventDelegate_shared _ _ _ _ _ _ Hskip Hget Hroot). cbv zeta.
    unfold initRegistry.
    destruct (customEventRootDelegates g) as [registry|] eqn:Hcr; simpl.
    + case_bool_decide; simpl; by rewrite ?Hcr, app_nil_r.
    + rewrite lookup_empty. by rewrite bool_decide_eq_false_2 by by intros [? ?].
  - rewrite (bindEventDelegate_private _ _ _ _ _ _ Hskip Hget Hroot). cbv zeta.
    simpl. by rewrite app_nil_r.
Qed.

Lemma onRemoveEditor_handlers select activeEditor g editor g1 editor1 :
  onRemoveEditor select activeEditor g editor = Ok (g1, editor1) ->
  removeEditorHandlers g1 = removeEditorHandlers g
  /\ (activeEditor = None -> customEventRootDelegates g1 = None).
Proof.
  unfold onRemoveEditor. destruct activeEditor as [a|]; [by intros [= <- <-]|].
  destruct (customEventRootDelegates g) as [registry|] eqn:Hcr.
  - destruct (foldl _ _ _) as [[ls ed]|]; [|done]. by intros [= <- <-].
  - by intros [= <- <-].
Qed.

(** X15. The ['removeEditor'] handler is registered anew each time the
    shared registry is created, and the teardown that drops the registry
    leaves the handlers: after a teardown, the first binding by a live
    editor with an event root, of a name for which
    [editor.delegates[name]] counts as false (so none that plain objects
    inherit), has the handlers there were before the teardown and one
    more. *)
Theorem removeEditorHandlers_accumulate select g holder g1 holder1 editor eventName :
  onRemoveEditor select None g holder = Ok (g1, holder1) ->
  removed editor = false -> hasDelegate editor eventName = false ->
  truthy (getEventRoot editor) = true ->
  removeEditorHandlers (bindEventDelegate select g1 editor eventName).1
  = (removeEditorHandlers g ++ [id editor])%list.
Proof.
  intros Hdown Hrem Hhas Hroot.
  destruct (onRemoveEditor_handlers _ _ _ _ _ _ Hdown) as [Hhandlers Hnone].
  rewrite bindEventDelegate_handlers, Hhandlers, Hrem, Hhas, Hroot, (Hnone eq_refl).
  by rewrite bool_decide_eq_true_2.
Qed.

Lemma removeEditorHandlers_accumulate_witness :
  removeEditorHandlers
    (bindEventDelegate Samples.select (mkGlobal None [] ["A"] 1)
       Samples.editorB "click").1
  = ["A"; "B"].
Proof.
  exact (removeEditorHandlers_accumulate Samples.select Samples.boundA.1
           Samples.boundA.2 (mkGlobal None [] ["A"] 1) Samples.boundA.2
           Samples.editorB "click" eq_refl eq_refl eq_refl eq_refl).
Defined.

(* ===================================================================== *)
(** ** More on the image picker *)
(* ===================================================================== *)

(** X16. [extractBlob] throws exactly when the target has no file list
    and the drag payload is missing or has none either; with no list on
    the target and one on the drag payload it gives the first dropped
    file, or nothing when that list is empty. *)
Theorem extractBlob_throws se :
  (extractBlob se = TypeError
   <-> target_files (raw se) = None
       /\ (dataTransfer (raw se) = None
           \/ exists dt, dataTransfer (raw se) = Some dt /\ dt_files dt = None))
  /\ (forall dt files,
        target_files (raw se) = None -> dataTransfer (raw se) = Some dt ->
        dt_files dt = Some files ->
        extractBlob se = Ok (head files)).
Proof.
  unfold extractBlob, pickFiles. split.
  - destruct (target_files (raw se)) as [files|].
    + split; [done | by intros [? _]].
    + destruct (dataTransfer (raw se)) as [[[files|]]|]; split; try done.
      * intros [_ [?|(dt & [= <-] & ?)]]; done.
      * intros _. split; [done|]. right. by eexists.
      * intros _. split; [done|]. by left.
  - intros dt files -> -> Hfiles. by rewrite Hfiles.
Qed.

Lemma extractBlob_throws_witness :
  extractBlob
    (mkSimulatedEvent
       (mkRawEvent None (Some (mkDataTransfer (Some [blob 3; blob 4])))) false)
  = Ok (Some (blob 3)).
Proof.
  exact (proj2 (extractBlob_throws
                  (mkSimulatedEvent
                     (mkRawEvent None (Some (mkDataTransfer (Some [blob 3; blob 4]))))
                     false))
           (mkDataTransfer (Some [blob 3; blob 4])) [blob 3; blob 4]
           eq_refl eq_refl eq_refl).
Defined.

(** What [addImage] does to the cache and the content, whatever becomes
    of the conversion. *)
Lemma addImage_world blobToBase64 b w :
  let w' := (addImage blobToBase64 b w).2 in
  (exists base64,
     blobToBase64 b = Resolved base64
     /\ exists info img,
          info_blob info = b /\ info_base64 info = base64
          /\ img = mkHtml "img" [("src", blobUri info)]
          /\ blobCache w' = (blobCache w ++ [info])%list
          /\ content w' = (content w ++ [img])%list)
  \/ ((blobToBase64 b = Rejected \/ blobToBase64 b = Pending) /\ w' = w).
Proof.
  unfold addImage. destruct (blobToBase64 b) as [base64| |].
  - left. exists base64. split; [done|].
    exists (mkBlobInfo ("mceu" +:+ "_" +:+ pretty (S (unique w))) b base64).
    eexists. split; [done|]. split; [done|]. split; [reflexivity|].
    split; reflexivity.
  - right. by split; [left|].
  - right. by split; [right|].
Qed.

(** X17. A change of the picker puts at most one image into the content
    and at most one entry into the cache, however many files were
    chosen: the entry holds the first file of the list and its encoding,
    and the image points to that entry.  With an empty list, or while the
    conversion has not resolved, the editor is left as it is. *)
Theorem onChange_first_file blobToBase64 se files w w' :
  target_files (raw se) = Some files ->
  onChange blobToBase64 se w = Ok w' ->
  match files with
  | [] => w' = w
  | b :: _ =>
      match blobToBase64 b with
      | Resolved base64 =>
          exists info,
            info_blob info = b /\ info_base64 info = base64
            /\ blobCache w' = (blobCache w ++ [info])%list
            /\ content w'
               = (content w ++ [mkHtml "img" [("src", blobUri info)]])%list
      | _ => w' = w
      end
  end.
Proof.
  intros Hfiles. unfold onChange, extractBlob, pickFiles. rewrite Hfiles.
  destruct files as [|b rest]; simpl; [by intros [= <-]|].
  intros [= <-].
  destruct (addImage_world blobToBase64 b w)
    as [(base64 & Hres & info & img & Hb & H64 & -> & Hcache & Hcontent)
       |[[Hres|Hres] Hsame]]; rewrite Hres; try done.
  by exists info.
Qed.

Lemma onChange_first_file_witness :
  exists w',
    onChange (fun _ => Resolved "aGk=")
      (mkSimulatedEvent (mkRawEvent (Some [blob 7; blob 8]) None) false)
      (mkWorld 4 [] [] 0 0 [])
    = Ok w'
    /\ List.length (content w') = 1
    /\ List.map info_blob (blobCache w') = [blob 7].
Proof.
  eexists. split; [reflexivity|].
  destruct (onChange_first_file (fun _ => Resolved "aGk=")
              (mkSimulatedEvent (mkRawEvent (Some [blob 7; blob 8]) None) false)
              [blob 7; blob 8] (mkWorld 4 [] [] 0 0 []) _ eq_refl eq_refl)
    as (info & Hb & _ & Hcache & Hcontent).
  rewrite Hcache, Hcontent. simpl. by rewrite Hb.
Defined.

(* ===================================================================== *)
(** ** What unbindAllNativeEvents clears *)
(* ===================================================================== *)

Lemma unbind_target_gone (t : EventTarget) ls (l : Listener Delegate) :
  l ∈ unbind (Some t) None None ls -> l_target l ≠ t.
Proof.
  intros Hl Heq. apply unbind_elem in Hl as [_ Hsel].
  specialize (Hsel t eq_refl). unfold selected in Hsel.
  by rewrite bool_decide_eq_true_2 in Hsel.
Qed.

(** X18. When [unbindAllNativeEvents] returns on an editor that has its
    [dom], no listener is left on the editor's body or container, and,
    for an iframe editor with a body, none on its window or document and
    the body's [onload] handler is cleared.  Without [dom] it takes no
    listener off. *)
Theorem unbindAllNativeEvents_clears select g self g1 self1 :
  unbindAllNativeEvents select g self = Ok (g1, self1) ->
  (dom self = true ->
   (forall l, l ∈ listeners g1 ->
      Some (l_target l) ≠ TNode <$> body self
      /\ Some (l_target l) ≠ TNode <$> container self)
   /\ (inline self = false -> is_Some (body self) ->
       body_onload self1 = false
       /\ forall l, l ∈ listeners g1 ->
            l_target l ≠ TWindow (win self) /\ l_target l ≠ TNode (doc self)))
  /\ (dom self = false -> listeners g1 = listeners g /\ body_onload self1 = body_onload self).
Proof.
  intros Hrun. split.
  - intros Hdom.
    destruct (unbindAllNativeEvents_result _ _ _ _ _ Hrun)
      as (ls1 & r & _ & _ & -> & ->).
    rewrite Hdom. cbn [listeners]. split.
    + intros l Hl. split.
      * apply unbind_subset in Hl. destruct (body self) as [b|]; [|done].
        simpl in *. intros [= Heq]. by apply unbind_target_gone in Hl.
      * destruct (container self) as [c|]; [|done].
        simpl in *. intros [= Heq]. by apply unbind_target_gone in Hl.
    + intros Hinline Hbody. rewrite Hinline, bool_decide_eq_true_2 by done.
      simpl. split; [done|]. intros l Hl. do 2 apply unbind_subset in Hl. split.
      * apply unbind_subset in Hl. by apply unbind_target_gone in Hl.
      * by apply unbind_target_gone in Hl.
  - intros Hdom. revert Hrun. unfold unbindAllNativeEvents. rewrite Hdom.
    destruct (delegates self) as [ds|] eqn:Hds.
    + destruct (map_to_list ds) as [|entry entries] eqn:Hentries.
      * simpl. rewrite andb_false_r. by intros [= <- <-].
      * rewrite foldl_unbindDelegate_no_dom; done.
    + rewrite andb_false_r. by intros [= <- <-].
Qed.

Lemma unbindAllNativeEvents_clears_witness :
  let onBody :=
    mkListener (TNode (mkNode 1 [1; 0])) "keydown"
      (mkDelegate 5 (EditorDelegate "J" "keydown")) in
  let g := mkGlobal None (onBody :: listeners Samples.boundI.1) [] 6 in
  exists g1 self1,
    unbindAllNativeEvents Samples.select g Samples.boundI.2 = Ok (g1, self1)
    /\ body_onload Samples.boundI.2 = true
    /\ body_onload self1 = false
    /\ forall l, l ∈ listeners g1 -> l_target l ≠ TNode (mkNode 1 []).
Proof.
  intros onBody g. eexists _, _. split; [reflexivity|]. split; [reflexivity|].
  destruct (proj1 (unbindAllNativeEvents_clears Samples.select g Samples.boundI.2
                     _ _ eq_refl) eq_refl) as [_ Hiframe].
  destruct (Hiframe eq_refl ltac:(by eexists)) as [Hload Hgone].
  split; [exact Hload|]. intros l Hl. exact (proj2 (Hgone l Hl)).
Defined.
